(** * check.bin codec: [pack_checkbin.py] and [extract_checkbin.py]

    A shallow embedding of the two scripts of the repository, and the
    properties of the container format they read and write:

      offset 0..16              four little-endian u32: magic, version, flags, count
      offset 16..16+260*count   count slots of 260 bytes, UTF-8 text, NUL padded
      offset 16+260*count..end  count little-endian u32 metadata values

    Python values are modelled as follows.
      - [int]   : [Z] (unbounded, as in Python);
      - [bytes] : [list byte];
      - [str]   : the list of its code points, each a [Z];
      - a raised exception : the [Err] branch of [result]. *)

From Stdlib Require Import String Ascii Strings.Byte.
From Stdlib Require Import ZArith List Bool Lia.
Import ListNotations.

#[local] Open Scope Z_scope.

(* ================================================================== *)
(** ** Python values *)

Definition bytes := list byte.

(** A Python [str]: the sequence of its code points. *)
Definition str := list Z.

(** The code points of an ASCII literal, for writing test data. *)
Definition ascii_str (s : string) : str :=
  map (fun a => Z.of_N (N_of_ascii a)) (list_ascii_of_string s).

Definition b2z (b : byte) : Z := Z.of_N (Byte.to_N b).

Definition z2b (z : Z) : byte :=
  match Byte.of_N (Z.to_N (z mod 256)) with
  | Some b => b
  | None => x00
  end.

(** [len(x)] as a Python integer. *)
Definition len {A : Type} (l : list A) : Z := Z.of_nat (length l).

(** [x[i:j]] for indices [0 <= i]: Python clamps both ends to the length. *)
Definition slice {A : Type} (l : list A) (i j : Z) : list A :=
  firstn (Z.to_nat (j - i)) (skipn (Z.to_nat i) l).

(** [x[i:]] *)
Definition slice_from {A : Type} (l : list A) (i : Z) : list A :=
  skipn (Z.to_nat i) l.

(** [range(n)] *)
Definition range (n : Z) : list Z := map Z.of_nat (seq 0 (Z.to_nat n)).

(** [range(0, stop, step)] for a positive step. *)
Definition range_step (stop step : Z) : list Z :=
  map (fun k => k * step) (range ((stop + step - 1) / step)).

(* ================================================================== *)
(** ** Exceptions *)

(** The exceptions the two scripts can raise.  The first eight are the
    [ValueError]s of the scripts, named after the condition they report and
    carrying the values their message interpolates; the last four are raised
    by the built-ins [int.to_bytes], [str.encode], [json.loads] and [int]. *)
Inductive error : Type :=
| TruncatedHeader
    (* "File too small to contain header" *)
| SizeMismatch (actual expected : Z)
    (* "Unexpected file size: {actual} bytes (expected {expected})" *)
| TrailerSizeMismatch (actual expected : Z)
    (* "Unexpected trailer size: {actual} bytes (expected {expected})" *)
| EntryTooLong (length : Z) (entry : str)
    (* "Entry too long ({length} bytes): {entry}" *)
| MetadataCountMismatch (got expected : Z)
    (* "Metadata count ({got}) does not match entries ({expected})" *)
| EmptyInput
    (* "No entries found to pack" *)
| JsonNotAList
    (* "JSON input must be a list or object with entries" *)
| MetadataNotAList
    (* "Metadata must be a list of integers" *)
| OverflowError
    (* int.to_bytes: negative, or too big to convert *)
| UnicodeEncodeError
    (* str.encode: surrogates not allowed *)
| JSONDecodeError
    (* json.loads: not a JSON document *)
| IntConversionError.
    (* int(value): TypeError or ValueError *)

Inductive result (A : Type) : Type :=
| Ok (a : A)
| Err (e : error).
Arguments Ok {A} a.
Arguments Err {A} e.

Definition bind {A B : Type} (r : result A) (k : A -> result B) : result B :=
  match r with
  | Ok a => k a
  | Err e => Err e
  end.

Notation "x <- r ;; k" := (bind r (fun x => k))
  (at level 61, r at next level, right associativity).

(** A comprehension or loop whose body may raise: elements are processed
    in order and the first exception stops the iteration. *)
Fixpoint mapM {A B : Type} (f : A -> result B) (l : list A) : result (list B) :=
  match l with
  | [] => Ok []
  | a :: t => b <- f a ;; bs <- mapM f t ;; Ok (b :: bs)
  end.

(* ================================================================== *)
(** ** Built-ins: integers and bytes *)

Fixpoint le_bytes (n : nat) (v : Z) : bytes :=
  match n with
  | O => []
  | S k => z2b (v mod 256) :: le_bytes k (v / 256)
  end.

(** [v.to_bytes(n, "little")]: unsigned, raises [OverflowError] when [v] is
    negative or does not fit in [n] bytes. *)
Definition int_to_bytes (n : nat) (v : Z) : result bytes :=
  if v <? 0 then Err OverflowError
  else if 256 ^ Z.of_nat n <=? v then Err OverflowError
  else Ok (le_bytes n v).

(** [int.from_bytes(bs, "little")] *)
Fixpoint int_from_bytes (bs : bytes) : Z :=
  match bs with
  | [] => 0
  | b :: t => b2z b + 256 * int_from_bytes t
  end.

(** [bs.ljust(width, b"\x00")] *)
Definition ljust (bs : bytes) (width : Z) : bytes :=
  bs ++ repeat x00 (Z.to_nat (width - len bs)).

(** [bs.split(b"\x00", 1)[0]]: the bytes before the first NUL, all of [bs]
    when it has none. *)
Fixpoint before_nul (bs : bytes) : bytes :=
  match bs with
  | [] => []
  | b :: t => if Byte.eqb b x00 then [] else b :: before_nul t
  end.

(* ================================================================== *)
(** ** Built-ins: strings *)

(** [c.isspace()], the characters [str.strip] removes. *)
Definition is_space (c : Z) : bool :=
  ((0x9 <=? c) && (c <=? 0xD)) || ((0x1C <=? c) && (c <=? 0x20))
  || (c =? 0x85) || (c =? 0xA0) || (c =? 0x1680)
  || ((0x2000 <=? c) && (c <=? 0x200A))
  || (c =? 0x2028) || (c =? 0x2029) || (c =? 0x202F) || (c =? 0x205F)
  || (c =? 0x3000).

(** [s.lstrip()] *)
Fixpoint lstrip (s : str) : str :=
  match s with
  | [] => []
  | c :: t => if is_space c then lstrip t else s
  end.

(** [s.strip()] *)
Definition strip (s : str) : str := rev (lstrip (rev (lstrip s))).

(** The line boundaries of [str.splitlines], "\r\n" apart. *)
Definition is_linebreak (c : Z) : bool :=
  ((0xA <=? c) && (c <=? 0xD)) || ((0x1C <=? c) && (c <=? 0x1E))
  || (c =? 0x85) || (c =? 0x2028) || (c =? 0x2029).

(** [s.splitlines()], with [line] the reversed characters of the line
    being read. *)
Fixpoint splitlines_from (line : str) (s : str) : list str :=
  match s with
  | [] => match line with [] => [] | _ => [rev line] end
  | c :: t =>
    if is_linebreak c then
      match t with
      | c2 :: t2 =>
        if (c =? 0xD) && (c2 =? 0xA) then rev line :: splitlines_from [] t2
        else rev line :: splitlines_from [] t
      | [] => rev line :: splitlines_from [] t
      end
    else splitlines_from (c :: line) t
  end.

Definition splitlines (s : str) : list str := splitlines_from [] s.

(** [s.startswith(chr(c))] *)
Definition startswith (s : str) (c : Z) : bool :=
  match s with
  | [] => false
  | x :: _ => x =? c
  end.

Fixpoint str_eqb (a b : str) : bool :=
  match a, b with
  | [], [] => true
  | x :: a', y :: b' => (x =? y) && str_eqb a' b'
  | _, _ => false
  end.

(* ================================================================== *)
(** ** Built-ins: the UTF-8 codec *)

(** U+FFFD, what [errors="replace"] puts for an undecodable sequence. *)
Definition REPLACEMENT : Z := 0xFFFD.

Definition is_surrogate (c : Z) : bool := (0xD800 <=? c) && (c <=? 0xDFFF).

(** [chr(c).encode("utf-8")]; there is no encoding for a surrogate (and none
    for an integer that is not a code point). *)
Definition utf8_encode_char (c : Z) : result bytes :=
  if c <? 0 then Err UnicodeEncodeError
  else if c <? 0x80 then Ok [z2b c]
  else if c <? 0x800 then
    Ok [z2b (0xC0 + c / 64); z2b (0x80 + c mod 64)]
  else if c <? 0x10000 then
    if is_surrogate c then Err UnicodeEncodeError
    else Ok [z2b (0xE0 + c / 4096); z2b (0x80 + (c / 64) mod 64);
             z2b (0x80 + c mod 64)]
  else if c <? 0x110000 then
    Ok [z2b (0xF0 + c / 262144); z2b (0x80 + (c / 4096) mod 64);
        z2b (0x80 + (c / 64) mod 64); z2b (0x80 + c mod 64)]
  else Err UnicodeEncodeError.

(** [s.encode("utf-8")] *)
Definition utf8_encode (s : str) : result bytes :=
  bss <- mapM utf8_encode_char s ;; Ok (concat bss).

Definition is_continuation (b : Z) : bool := (0x80 <=? b) && (b <? 0xC0).

(** [bs.decode("utf-8", errors="replace")], CPython's decoder: a well-formed
    sequence gives its code point; an invalid start byte, or a start byte
    with the longest prefix of a sequence that follows it, gives one U+FFFD
    and decoding resumes right after that prefix; a sequence cut short by
    the end of the data gives one U+FFFD. *)
Fixpoint utf8_decode_replace (bs : bytes) : str :=
  match bs with
  | [] => []
  | c1 :: t1 =>
    let ch := b2z c1 in
    if ch <? 0x80 then ch :: utf8_decode_replace t1
    else if ch <? 0xC2 then REPLACEMENT :: utf8_decode_replace t1
    else if ch <? 0xE0 then
      match t1 with
      | [] => [REPLACEMENT]
      | c2 :: t2 =>
        let ch2 := b2z c2 in
        if negb (is_continuation ch2) then REPLACEMENT :: utf8_decode_replace t1
        else ((ch - 0xC0) * 64 + (ch2 - 0x80)) :: utf8_decode_replace t2
      end
    else if ch <? 0xF0 then
      match t1 with
      | [] => [REPLACEMENT]
      | c2 :: t2 =>
        let ch2 := b2z c2 in
        if negb (is_continuation ch2)
           || (if ch2 <? 0xA0 then ch =? 0xE0 else ch =? 0xED)
        then REPLACEMENT :: utf8_decode_replace t1
        else
          match t2 with
          | [] => [REPLACEMENT]
          | c3 :: t3 =>
            let ch3 := b2z c3 in
            if negb (is_continuation ch3)
            then REPLACEMENT :: utf8_decode_replace t2
            else ((ch - 0xE0) * 4096 + (ch2 - 0x80) * 64 + (ch3 - 0x80))
                   :: utf8_decode_replace t3
          end
      end
    else if ch <? 0xF5 then
      match t1 with
      | [] => [REPLACEMENT]
      | c2 :: t2 =>
        let ch2 := b2z c2 in
        if negb (is_continuation ch2)
           || (if ch2 <? 0x90 then ch =? 0xF0 else ch =? 0xF4)
        then REPLACEMENT :: utf8_decode_replace t1
        else
          match t2 with
          | [] => [REPLACEMENT]
          | c3 :: t3 =>
            let ch3 := b2z c3 in
            if negb (is_continuation ch3)
            then REPLACEMENT :: utf8_decode_replace t2
            else
              match t3 with
              | [] => [REPLACEMENT]
              | c4 :: t4 =>
                let ch4 := b2z c4 in
                if negb (is_continuation ch4)
                then REPLACEMENT :: utf8_decode_replace t3
                else ((ch - 0xF0) * 262144 + (ch2 - 0x80) * 4096
                      + (ch3 - 0x80) * 64 + (ch4 - 0x80))
                       :: utf8_decode_replace t4
              end
          end
      end
    else REPLACEMENT :: utf8_decode_replace t1
  end.

(* ================================================================== *)
(** ** extract_checkbin.py *)

Definition ENTRY_SIZE : Z := 260.

Record header : Type := mkHeader {
  magic : Z;
  version : Z;
  flags : Z;
  count : Z
}.

(** The dictionary [parse_entries] returns. *)
Record record : Type := mkRecord {
  rec_header : header;
  rec_entries : list str;
  rec_metadata : list Z
}.

Definition parse_entries (data : bytes) : result record :=
  if len data <? 16 then Err TruncatedHeader
  else
    let header :=
      map (fun i => int_from_bytes (slice data i (i + 4))) (range_step 16 4) in
    let count := nth 3 header 0 in
    let expected_size := 16 + count * ENTRY_SIZE + count * 4 in
    if negb (len data =? expected_size)
    then Err (SizeMismatch (len data) expected_size)
    else
      let entries :=
        map (fun idx =>
               let start := 16 + idx * ENTRY_SIZE in
               let chunk := slice data start (start + ENTRY_SIZE) in
               utf8_decode_replace (before_nul chunk))
            (range count) in
      let trailer_start := 16 + count * ENTRY_SIZE in
      let trailer := slice_from data trailer_start in
      if negb (len trailer =? count * 4)
      then Err (TrailerSizeMismatch (len trailer) (count * 4))
      else
        let metadata :=
          map (fun i => int_from_bytes (slice trailer i (i + 4)))
              (range_step (len trailer) 4) in
        Ok {| rec_header := {| magic := nth 0 header 0;
                               version := nth 1 header 0;
                               flags := nth 2 header 0;
                               count := nth 3 header 0 |};
              rec_entries := entries;
              rec_metadata := metadata |}.

(* ================================================================== *)
(** ** pack_checkbin.py *)

(** The loop over the entries, lines 67-73: the body is the concatenation
    of the slots, and the first entry that cannot be encoded or is too long
    raises. *)
Fixpoint pack_body (entries : list str) : result bytes :=
  match entries with
  | [] => Ok []
  | entry :: rest =>
    encoded <- utf8_encode entry ;;
    if len encoded >? ENTRY_SIZE
    then Err (EntryTooLong (len encoded) entry)
    else
      body <- pack_body rest ;;
      Ok (ljust encoded ENTRY_SIZE ++ body)
  end.

Definition pack_entries (entries : list str) (header : Z * Z * Z)
    (metadata : option (list Z)) : result bytes :=
  let '(h0, h1, h2) := header in
  hs <- mapM (int_to_bytes 4) [h0; h1; h2] ;;
  let header_bytes := concat hs in
  cb <- int_to_bytes 4 (len entries) ;;
  let header_bytes := header_bytes ++ cb in
  body <- pack_body entries ;;
  let metadata :=
    match metadata with
    | None => repeat 0 (length entries)
    | Some m => m
    end in
  if negb (len metadata =? len entries)
  then Err (MetadataCountMismatch (len metadata) (len entries))
  else
    ts <- mapM (int_to_bytes 4) metadata ;;
    let trailer := concat ts in
    Ok (header_bytes ++ body ++ trailer).

#[local] Set Warnings "-register-all".

(** A value returned by [json.loads]; a float is kept as its text, and the
    members of an object are those of the resulting [dict] (one per
    key). *)
Inductive json : Type :=
| JNull
| JBool (b : bool)
| JInt (z : Z)
| JFloat (text : str)
| JStr (s : str)
| JList (items : list json)
| JDict (members : list (str * json)).

(** [key in d] and [d[key]]. *)
Fixpoint dict_get (members : list (str * json)) (key : str) : option json :=
  match members with
  | [] => None
  | (k, v) :: rest => if str_eqb k key then Some v else dict_get rest key
  end.

Section Loader.

(** The built-ins [json.loads], [str] and [int] on parsed JSON values
    are taken as given. *)
Variable json_loads : str -> result json.
Variable py_str : json -> str.
Variable py_int : json -> result Z.

(** [load_entries], lines 32-52, on the text [raw] read from the input
    file: the entries and the metadata before the emptiness check. *)
Definition read_entries (raw : str)
  : result (list str * option (list Z)) :=
  let stripped := lstrip raw in
  if startswith stripped 123 || startswith stripped 91 then
    payload <- json_loads raw ;;
    let metadata :=
      match payload with
      | JDict d =>
        match dict_get d (ascii_str "metadata") with
        | Some v => v
        | None => JNull
        end
      | _ => JNull
      end in
    let payload :=
      match payload with
      | JDict d =>
        match dict_get d (ascii_str "entries") with
        | Some v => v
        | None =>
          match dict_get d (ascii_str "paths") with
          | Some v => v
          | None => payload
          end
        end
      | _ => payload
      end in
    match payload with
    | JList items =>
      let entries := map py_str items in
      match metadata with
      | JNull => Ok (entries, None)
      | JList values =>
        m <- mapM py_int values ;; Ok (entries, Some m)
      | _ => Err MetadataNotAList
      end
    | _ => Err JsonNotAList
    end
  else
    Ok (map strip
          (filter (fun line => match strip line with [] => false | _ => true end)
                  (splitlines raw)),
        None).

(** [load_entries], with lines 54-56. *)
Definition load_entries (raw : str)
  : result (list str * option (list Z)) :=
  r <- read_entries raw ;;
  match fst r with
  | [] => Err EmptyInput
  | _ => Ok r
  end.

(** The bytes [main] writes to the output file, lines 88-89. *)
Definition main_payload (raw : str) (header : Z * Z * Z) : result bytes :=
  r <- load_entries raw ;;
  pack_entries (fst r) header (snd r).

End Loader.

(* ================================================================== *)
(** * Specification vocabulary *)

(** An unsigned 32-bit value. *)
Definition u32 (v : Z) : Prop := 0 <= v < 2 ^ 32.

(** The little-endian u32 stored at offset [i] of a buffer. *)
Definition field_at (data : bytes) (i : Z) : Z :=
  int_from_bytes (slice data i (i + 4)).

(** The size the header of a buffer announces. *)
Definition expected_size (data : bytes) : Z :=
  16 + field_at data 12 * ENTRY_SIZE + field_at data 12 * 4.

(** What [parse_entries] returns when both size checks pass. *)
Definition parsed (data : bytes) : record :=
  let count := field_at data 12 in
  let trailer := slice_from data (16 + count * ENTRY_SIZE) in
  {| rec_header := {| magic := field_at data 0;
                      version := field_at data 4;
                      flags := field_at data 8;
                      count := count |};
     rec_entries :=
       map (fun idx =>
              utf8_decode_replace
                (before_nul (slice data (16 + idx * ENTRY_SIZE)
                                   (16 + idx * ENTRY_SIZE + ENTRY_SIZE))))
           (range count);
     rec_metadata :=
       map (fun i => int_from_bytes (slice trailer i (i + 4)))
           (range_step (len trailer) 4) |}.

(** An entry the loop of [pack_entries] accepts: it has a UTF-8 encoding,
    of at most 260 bytes. *)
Definition entry_ok (entry : str) : Prop :=
  exists encoded, utf8_encode entry = Ok encoded /\ len encoded <= ENTRY_SIZE.

(** The slot written for an entry. *)
Definition slot_of (entry : str) : bytes :=
  match utf8_encode entry with
  | Ok encoded => ljust encoded ENTRY_SIZE
  | Err _ => []
  end.

(** The metadata after line 75-76. *)
Definition resolve_metadata (entries : list str) (metadata : option (list Z))
  : list Z :=
  match metadata with
  | None => repeat 0 (length entries)
  | Some m => m
  end.

(** The buffer laid out by a successful [pack_entries]. *)
Definition layout (entries : list str) (header : Z * Z * Z)
    (metadata : list Z) : bytes :=
  let '(h0, h1, h2) := header in
  (le_bytes 4 h0 ++ le_bytes 4 h1 ++ le_bytes 4 h2
   ++ le_bytes 4 (len entries))
  ++ concat (map slot_of entries)
  ++ concat (map (le_bytes 4) metadata).

(** The inputs [pack_entries] accepts. *)
Definition acceptable (entries : list str) (header : Z * Z * Z)
    (metadata : option (list Z)) : Prop :=
  let '(h0, h1, h2) := header in
  u32 h0 /\ u32 h1 /\ u32 h2 /\ u32 (len entries)
  /\ Forall entry_ok entries
  /\ len (resolve_metadata entries metadata) = len entries
  /\ Forall u32 (resolve_metadata entries metadata).

(** A string without the character U+0000. *)
Definition nul_free (s : str) : Prop := ~ In 0 s.

(** The characters of a string before its first U+0000. *)
Fixpoint str_before_nul (s : str) : str :=
  match s with
  | [] => []
  | c :: t => if c =? 0 then [] else c :: str_before_nul t
  end.

(** What the decoder reads in a slot: the decoded text before the first
    NUL byte. *)
Definition decode_slot (chunk : bytes) : str :=
  utf8_decode_replace (before_nul chunk).

(** The 16 header bytes and the slots of a laid out buffer. *)
Definition header_and_body (entries : list str) (header : Z * Z * Z) : bytes :=
  let '(h0, h1, h2) := header in
  (le_bytes 4 h0 ++ le_bytes 4 h1 ++ le_bytes 4 h2
   ++ le_bytes 4 (len entries))
  ++ concat (map slot_of entries).

(** A Unicode scalar value: a code point that is not a surrogate. *)
Definition scalar_value (c : Z) : Prop :=
  0 <= c < 0xD800 \/ 0xDFFF < c < 0x110000.

(** A string of whitespace characters only. *)
Definition all_space (s : str) : Prop := Forall (fun c => is_space c = true) s.

(** A string that [strip] leaves as it is: it neither starts nor ends with
    a whitespace character. *)
Definition stripped (s : str) : Prop :=
  (forall c t, s = c :: t -> is_space c = false)
  /\ (forall c t, rev s = c :: t -> is_space c = false).

(** ** Tactics *)

(** Linear arithmetic with division and remainder by constants. *)
Ltac euclid := Z.to_euclidean_division_equations; lia.

(** Case analysis on the integer tests of a goal; the cases the arithmetic
    excludes are closed. *)
Ltac split_tests :=
  repeat (match goal with
          | |- context [Z.ltb ?a ?b] => destruct (Z.ltb_spec a b)
          | |- context [Z.leb ?a ?b] => destruct (Z.leb_spec a b)
          | |- context [Z.eqb ?a ?b] => destruct (Z.eqb_spec a b)
          end;
          try (exfalso; euclid);
          cbn [negb orb andb]).

(** Bytes rebuilt from a decoded character are the bytes it was decoded
    from. *)
Ltac z2b_back :=
  repeat match goal with
         | b : byte |- context [z2b ?e] =>
             lazymatch e with b2z _ => fail | _ => idtac end;
             replace e with (b2z b) by euclid
         end.

(* ================================================================== *)
(** * Properties *)

(** ** Bytes and little-endian integers *)

Lemma b2z_range (b : byte) : 0 <= b2z b < 256.
Proof.
  unfold b2z. pose proof (Byte.to_N_bounded b) as H. lia.
Qed.

Lemma b2z_z2b (z : Z) : 0 <= z < 256 -> b2z (z2b z) = z.
Proof.
  intros Hz. unfold b2z, z2b. rewrite Z.mod_small by lia.
  destruct (Byte.of_N (Z.to_N z)) as [b|] eqn:E.
  - apply Byte.to_of_N in E. rewrite E. lia.
  - apply Byte.of_N_None_iff in E. lia.
Qed.

Lemma z2b_b2z (b : byte) : z2b (b2z b) = b.
Proof.
  pose proof (b2z_range b) as Hr. unfold z2b.
  rewrite Z.mod_small by lia. unfold b2z. rewrite N2Z.id.
  now rewrite Byte.of_to_N.
Qed.


Lemma length_le_bytes (n : nat) (v : Z) : length (le_bytes n v) = n.
Proof.
  revert v. induction n as [|n IH]; intros v; simpl; [reflexivity|].
  now rewrite IH.
Qed.

Lemma int_from_le_bytes (n : nat) (v : Z) :
  0 <= v < 256 ^ Z.of_nat n -> int_from_bytes (le_bytes n v) = v.
Proof.
  revert v. induction n as [|n IH]; intros v Hv.
  - simpl in *. lia.
  - rewrite Nat2Z.inj_succ, Z.pow_succ_r in Hv by lia.
    cbn [le_bytes int_from_bytes].
    rewrite b2z_z2b by (apply Z.mod_pos_bound; lia).
    rewrite IH.
    + pose proof (Z.div_mod v 256). lia.
    + split; [apply Z.div_pos; lia|].
      apply Z.div_lt_upper_bound; lia.
Qed.

Lemma int_from_bytes_range (bs : bytes) :
  0 <= int_from_bytes bs < 256 ^ Z.of_nat (length bs).
Proof.
  induction bs as [|b t IH].
  - simpl. lia.
  - cbn [int_from_bytes length]. rewrite Nat2Z.inj_succ, Z.pow_succ_r by lia.
    pose proof (b2z_range b). lia.
Qed.

Lemma int_from_bytes_u32 (bs : bytes) :
  (length bs <= 4)%nat -> u32 (int_from_bytes bs).
Proof.
  intros Hl. pose proof (int_from_bytes_range bs) as [H0 H1].
  split; [exact H0|].
  eapply Z.lt_le_trans; [exact H1|].
  change (2 ^ 32) with (256 ^ 4).
  apply Z.pow_le_mono_r; lia.
Qed.

Lemma int_to_bytes_ok (n : nat) (v : Z) :
  0 <= v < 256 ^ Z.of_nat n -> int_to_bytes n v = Ok (le_bytes n v).
Proof.
  intros Hv. unfold int_to_bytes.
  destruct (v <? 0) eqn:E1; [lia|].
  destruct (256 ^ Z.of_nat n <=? v) eqn:E2; [lia|]. reflexivity.
Qed.

Lemma int_to_bytes_inv (n : nat) (v : Z) (bs : bytes) :
  int_to_bytes n v = Ok bs -> 0 <= v < 256 ^ Z.of_nat n /\ bs = le_bytes n v.
Proof.
  unfold int_to_bytes.
  destruct (v <? 0) eqn:E1; [discriminate|].
  destruct (256 ^ Z.of_nat n <=? v) eqn:E2; [discriminate|].
  intros H. injection H as <-. split; [lia|reflexivity].
Qed.


(** ** Slices and ranges *)

Lemma len_nonneg {A : Type} (l : list A) : 0 <= len l.
Proof. unfold len. lia. Qed.

Lemma len_app {A : Type} (l1 l2 : list A) : len (l1 ++ l2) = len l1 + len l2.
Proof. unfold len. rewrite length_app. lia. Qed.

Lemma length_range (n : Z) : length (range n) = Z.to_nat n.
Proof. unfold range. now rewrite length_map, length_seq. Qed.

Lemma range_succ (n : Z) : 0 <= n -> range (n + 1) = range n ++ [n].
Proof.
  intros Hn. unfold range.
  replace (Z.to_nat (n + 1)) with (S (Z.to_nat n)) by lia.
  rewrite seq_S, map_app. simpl. now rewrite Z2Nat.id.
Qed.

Lemma length_range_step (stop step : Z) :
  length (range_step stop step) = Z.to_nat ((stop + step - 1) / step).
Proof. unfold range_step. now rewrite length_map, length_range. Qed.


Lemma length_slice_le {A : Type} (l : list A) (i j : Z) :
  (length (slice l i j) <= Z.to_nat (j - i))%nat.
Proof. unfold slice. rewrite length_firstn. lia. Qed.

Lemma slice_app_exact {A : Type} (pre mid post : list A) (i j : Z) :
  i = len pre -> j = len pre + len mid ->
  slice (pre ++ mid ++ post) i j = mid.
Proof.
  intros -> ->. unfold slice, len.
  rewrite Nat2Z.id, skipn_app, skipn_all, Nat.sub_diag. simpl.
  replace (Z.to_nat _) with (length mid) by lia.
  rewrite firstn_app, firstn_all, Nat.sub_diag. simpl. apply app_nil_r.
Qed.

Lemma slice_from_app {A : Type} (pre post : list A) (i : Z) :
  i = len pre -> slice_from (pre ++ post) i = post.
Proof.
  intros ->. unfold slice_from, len.
  rewrite Nat2Z.id, skipn_app, skipn_all, Nat.sub_diag. reflexivity.
Qed.

(** ** The decoder *)

Lemma field_at_u32 (data : bytes) (i : Z) : u32 (field_at data i).
Proof.
  apply int_from_bytes_u32. unfold field_at.
  pose proof (length_slice_le data i (i + 4)). lia.
Qed.

Lemma len_slice_from (data : bytes) (i : Z) :
  0 <= i <= len data -> len (slice_from data i) = len data - i.
Proof.
  intros Hi. unfold slice_from, len in *. rewrite length_skipn. lia.
Qed.

Lemma parse_entries_short (data : bytes) :
  len data < 16 -> parse_entries data = Err TruncatedHeader.
Proof.
  intros H. unfold parse_entries.
  destruct (len data <? 16) eqn:E; [reflexivity|lia].
Qed.

Lemma parse_entries_mismatch (data : bytes) :
  16 <= len data -> len data <> expected_size data ->
  parse_entries data = Err (SizeMismatch (len data) (expected_size data)).
Proof.
  intros H16 Hne. unfold parse_entries.
  destruct (len data <? 16) eqn:E; [lia|].
  change (range_step 16 4) with [0; 4; 8; 12]. cbn [map nth].
  fold (field_at data 12). fold (expected_size data).
  destruct (len data =? expected_size data) eqn:E2; [lia|]. reflexivity.
Qed.

Lemma parse_entries_sized (data : bytes) :
  16 <= len data -> len data = expected_size data ->
  parse_entries data = Ok (parsed data).
Proof.
  intros H16 Heq. unfold parse_entries.
  destruct (len data <? 16) eqn:E; [lia|].
  change (range_step 16 4) with [0; 4; 8; 12]. cbn [map nth].
  fold (field_at data 0) (field_at data 4) (field_at data 8) (field_at data 12).
  fold (expected_size data).
  destruct (len data =? expected_size data) eqn:E2; [|lia]. cbn [negb].
  pose proof (field_at_u32 data 12) as [Hc _].
  unfold expected_size, ENTRY_SIZE in Heq.
  pose proof (len_slice_from data (16 + field_at data 12 * ENTRY_SIZE)) as Ht.
  destruct (len (slice_from data (16 + field_at data 12 * ENTRY_SIZE))
            =? field_at data 12 * 4) eqn:E3; [reflexivity|].
  unfold ENTRY_SIZE in *. lia.
Qed.


Lemma parse_entries_inv (data : bytes) (r : record) :
  parse_entries data = Ok r ->
  16 <= len data /\ len data = expected_size data /\ r = parsed data.
Proof.
  intros H.
  destruct (Z_lt_dec (len data) 16) as [Hlt|Hge].
  { rewrite parse_entries_short in H by exact Hlt. discriminate. }
  destruct (Z.eq_dec (len data) (expected_size data)) as [Heq|Hne].
  - rewrite parse_entries_sized in H by lia. injection H as <-.
    repeat split; [lia|exact Heq].
  - rewrite parse_entries_mismatch in H by lia. discriminate.
Qed.

(** C10.  Decoder output invariant: in every record [parse_entries]
    returns, the number of entries and the number of metadata values both
    equal the count field of the returned header, and the four header
    fields and every metadata value are in [0, 2^32). *)
Theorem parse_entries_output_invariant (data : bytes) (r : record) :
  parse_entries data = Ok r ->
  len (rec_entries r) = count (rec_header r)
  /\ len (rec_metadata r) = count (rec_header r)
  /\ u32 (magic (rec_header r)) /\ u32 (version (rec_header r))
  /\ u32 (flags (rec_header r)) /\ u32 (count (rec_header r))
  /\ Forall u32 (rec_metadata r).
Proof.
  intros H. apply parse_entries_inv in H as (H16 & Hsz & ->).
  pose proof (field_at_u32 data 12) as Hc.
  unfold expected_size, ENTRY_SIZE in Hsz.
  unfold parsed. cbn [rec_entries rec_metadata rec_header magic version flags count].
  repeat split; try apply field_at_u32.
  - unfold len. rewrite length_map, length_range. destruct Hc. lia.
  - unfold len at 1. rewrite length_map, length_range_step.
    rewrite len_slice_from by (unfold ENTRY_SIZE; destruct Hc; lia).
    unfold ENTRY_SIZE.
    replace (len data - (16 + field_at data 12 * 260) + 4 - 1)
      with (3 + field_at data 12 * 4) by lia.
    rewrite Z.div_add by lia. change (3 / 4) with 0. destruct Hc. lia.
  - apply Forall_forall. intros v Hv. apply in_map_iff in Hv as (i & <- & _).
    apply int_from_bytes_u32.
    match goal with |- (length (slice ?l ?a ?b) <= 4)%nat =>
      pose proof (length_slice_le l a b) end.
    lia.
Qed.

Lemma parse_entries_output_invariant_witness :
  let r := parsed (repeat x00 12 ++ [x01; x00; x00; x00]
                   ++ repeat x00 260 ++ [x07; x00; x00; x00]) in
  len (rec_entries r) = count (rec_header r)
  /\ len (rec_metadata r) = count (rec_header r)
  /\ u32 (magic (rec_header r)) /\ u32 (version (rec_header r))
  /\ u32 (flags (rec_header r)) /\ u32 (count (rec_header r))
  /\ Forall u32 (rec_metadata r).
Proof.
  apply (parse_entries_output_invariant
           (repeat x00 12 ++ [x01; x00; x00; x00]
            ++ repeat x00 260 ++ [x07; x00; x00; x00])).
  vm_compute. reflexivity.
Defined.

(** Lossy decode: a slot holding a lone continuation byte is read without
    error, as U+FFFD. *)
Example lossy_decode :
  parse_entries (le_bytes 4 2008 ++ le_bytes 4 1 ++ le_bytes 4 7
                 ++ le_bytes 4 1 ++ (x80 :: repeat x00 259) ++ le_bytes 4 0)
  = Ok {| rec_header := {| magic := 2008; version := 1; flags := 7;
                           count := 1 |};
          rec_entries := [[REPLACEMENT]];
          rec_metadata := [0] |}.
Proof. vm_compute. reflexivity. Qed.

(** Size mismatch detection: a header announcing 3 entries on a buffer
    that has the length of 2. *)
Example size_mismatch_detected :
  parse_entries (le_bytes 4 2008 ++ le_bytes 4 1 ++ le_bytes 4 7
                 ++ le_bytes 4 3 ++ repeat x00 (2 * 264))
  = Err (SizeMismatch 544 808).
Proof. vm_compute. reflexivity. Qed.

(** ** The encoder *)

Lemma mapM_int_to_bytes_ok (l : list Z) :
  Forall u32 l -> mapM (int_to_bytes 4) l = Ok (map (le_bytes 4) l).
Proof.
  induction 1 as [|v l Hv _ IH]; [reflexivity|].
  cbn [mapM map]. rewrite int_to_bytes_ok by exact Hv.
  cbn [bind]. rewrite IH. reflexivity.
Qed.

Lemma mapM_int_to_bytes_inv (l : list Z) (ts : list bytes) :
  mapM (int_to_bytes 4) l = Ok ts -> Forall u32 l /\ ts = map (le_bytes 4) l.
Proof.
  revert ts. induction l as [|v l IH]; intros ts H.
  - injection H as <-. split; [constructor|reflexivity].
  - cbn [mapM] in H.
    destruct (int_to_bytes 4 v) as [b|e] eqn:Ev; [|discriminate].
    apply int_to_bytes_inv in Ev as (Hv & ->). cbn [bind] in H.
    destruct (mapM (int_to_bytes 4) l) as [bs|e] eqn:El; [|discriminate].
    destruct (IH bs eq_refl) as (Hl & ->).
    injection H as <-. split; [constructor; assumption|reflexivity].
Qed.

Lemma mapM_int_to_bytes_err (l : list Z) (e : error) :
  mapM (int_to_bytes 4) l = Err e -> e = OverflowError.
Proof.
  induction l as [|v l IH]; [discriminate|]. cbn [mapM].
  unfold int_to_bytes at 1.
  destruct (v <? 0); [intros H; now injection H|].
  destruct (256 ^ Z.of_nat 4 <=? v); [intros H; now injection H|].
  cbn [bind].
  destruct (mapM (int_to_bytes 4) l) as [bs|e'];
    [discriminate | intros H; injection H as <-; now apply IH].
Qed.

Lemma len_ljust (bs : bytes) (w : Z) : len bs <= w -> len (ljust bs w) = w.
Proof.
  intros H. unfold ljust. rewrite len_app. unfold len in *.
  rewrite repeat_length. lia.
Qed.

Lemma len_slot_of (entry : str) : entry_ok entry -> len (slot_of entry) = 260.
Proof.
  intros (bs & Hb & Hl). unfold slot_of. rewrite Hb.
  now apply len_ljust.
Qed.

Lemma len_concat_slots (entries : list str) :
  Forall entry_ok entries ->
  len (concat (map slot_of entries)) = 260 * len entries.
Proof.
  induction 1 as [|e es He _ IH]; [reflexivity|].
  cbn [map concat]. rewrite len_app, IH, (len_slot_of e He).
  unfold len. cbn [length]. lia.
Qed.

Lemma len_concat_le_bytes (l : list Z) :
  len (concat (map (le_bytes 4) l)) = 4 * len l.
Proof.
  induction l as [|v l IH]; [reflexivity|].
  cbn [map concat]. rewrite len_app, IH. unfold len.
  rewrite length_le_bytes. cbn [length]. lia.
Qed.

Lemma pack_body_ok (entries : list str) :
  Forall entry_ok entries ->
  pack_body entries = Ok (concat (map slot_of entries)).
Proof.
  induction 1 as [|e es (bs & Hb & Hl) _ IH]; [reflexivity|].
  cbn [pack_body map concat]. unfold slot_of at 1. rewrite Hb. cbn [bind].
  destruct (len bs >? ENTRY_SIZE) eqn:E; [lia|].
  rewrite IH. reflexivity.
Qed.

Lemma pack_body_inv (entries : list str) (body : bytes) :
  pack_body entries = Ok body ->
  Forall entry_ok entries /\ body = concat (map slot_of entries).
Proof.
  revert body. induction entries as [|e es IH]; intros body H.
  - injection H as <-. split; [constructor|reflexivity].
  - cbn [pack_body] in H.
    destruct (utf8_encode e) as [bs|err] eqn:Hb; [|discriminate].
    cbn [bind] in H.
    destruct (len bs >? ENTRY_SIZE) eqn:E; [discriminate|].
    destruct (pack_body es) as [body'|err] eqn:Hes; [|discriminate].
    destruct (IH body' eq_refl) as (Hes' & ->).
    injection H as <-. split.
    + constructor; [exists bs; split; [exact Hb|lia] | exact Hes'].
    + cbn [map concat]. unfold slot_of at 2. now rewrite Hb.
Qed.

Lemma pack_entries_ok (entries : list str) (header : Z * Z * Z)
    (metadata : option (list Z)) :
  acceptable entries header metadata ->
  pack_entries entries header metadata
  = Ok (layout entries header (resolve_metadata entries metadata)).
Proof.
  destruct header as [[h0 h1] h2].
  intros (H0 & H1 & H2 & Hc & Hes & Hlen & Hmd).
  unfold pack_entries, layout.
  rewrite mapM_int_to_bytes_ok
    by (repeat (apply Forall_cons; [assumption|]); apply Forall_nil).
  cbn [bind]. rewrite int_to_bytes_ok by exact Hc. cbn [bind].
  rewrite pack_body_ok by exact Hes. cbn [bind].
  fold (resolve_metadata entries metadata). rewrite Hlen, Z.eqb_refl.
  cbn [negb]. rewrite mapM_int_to_bytes_ok by exact Hmd. cbn [bind].
  cbn [map concat]. now rewrite app_nil_r, <- !app_assoc.
Qed.

Lemma pack_entries_inv (entries : list str) (header : Z * Z * Z)
    (metadata : option (list Z)) (buf : bytes) :
  pack_entries entries header metadata = Ok buf ->
  acceptable entries header metadata
  /\ buf = layout entries header (resolve_metadata entries metadata).
Proof.
  destruct header as [[h0 h1] h2]. intros H.
  assert (Hacc : acceptable entries (h0, h1, h2) metadata).
  { unfold pack_entries in H.
    destruct (mapM (int_to_bytes 4) [h0; h1; h2]) as [hs|e] eqn:Eh;
      [|discriminate].
    apply mapM_int_to_bytes_inv in Eh as (Hh & _). cbn [bind] in H.
    destruct (int_to_bytes 4 (len entries)) as [cb|e] eqn:Ec; [|discriminate].
    apply int_to_bytes_inv in Ec as (Hc & _). cbn [bind] in H.
    destruct (pack_body entries) as [body|e] eqn:Eb; [|discriminate].
    apply pack_body_inv in Eb as (Hes & _). cbn [bind] in H.
    fold (resolve_metadata entries metadata) in H.
    destruct (len (resolve_metadata entries metadata) =? len entries) eqn:El;
      [|discriminate].
    cbn [negb] in H.
    destruct (mapM (int_to_bytes 4) (resolve_metadata entries metadata))
      as [ts|e] eqn:Em; [|discriminate].
    apply mapM_int_to_bytes_inv in Em as (Hmd & _).
    inversion Hh as [|? ? H0 Hh']; subst.
    inversion Hh' as [|? ? H1 Hh'']; subst.
    inversion Hh'' as [|? ? H2 _]; subst.
    repeat split; try assumption; try apply H0; try apply H1; try apply H2;
      try apply Hc.
    lia. }
  split; [exact Hacc|].
  rewrite (pack_entries_ok _ _ _ Hacc) in H. now injection H.
Qed.

Lemma pack_entries_accepts_iff (entries : list str) (header : Z * Z * Z)
    (metadata : option (list Z)) :
  (exists buf, pack_entries entries header metadata = Ok buf)
  <-> acceptable entries header metadata.
Proof.
  split.
  - intros (buf & H). now apply pack_entries_inv in H.
  - intros H. eexists. now apply pack_entries_ok.
Qed.

Lemma len_layout (entries : list str) (header : Z * Z * Z) (md : list Z) :
  Forall entry_ok entries -> len md = len entries ->
  len (layout entries header md) = 16 + 260 * len entries + 4 * len entries.
Proof.
  destruct header as [[h0 h1] h2]. intros Hes Hmd. unfold layout.
  rewrite !len_app, len_concat_slots, len_concat_le_bytes by exact Hes.
  unfold len in *. rewrite !length_le_bytes. lia.
Qed.

(** C5.  Size law: whenever [pack_entries] accepts its input and returns a
    buffer, that buffer has exactly 16 + 260*len(entries) + 4*len(entries)
    bytes. *)
Theorem pack_entries_size (entries : list str) (header : Z * Z * Z)
    (metadata : option (list Z)) (buf : bytes) :
  pack_entries entries header metadata = Ok buf ->
  len buf = 16 + 260 * len entries + 4 * len entries.
Proof.
  intros H. apply pack_entries_inv in H as (Hacc & ->).
  destruct header as [[h0 h1] h2].
  destruct Hacc as (_ & _ & _ & _ & Hes & Hlen & _).
  now apply len_layout.
Qed.

Lemma pack_entries_size_witness :
  len (layout [ascii_str "a"; ascii_str "bb"] (2008, 1, 7) [0; 0])
  = 16 + 260 * 2 + 4 * 2.
Proof.
  apply (pack_entries_size [ascii_str "a"; ascii_str "bb"] (2008, 1, 7) None).
  vm_compute. reflexivity.
Defined.

(** C6.  Count derivation: in every buffer [pack_entries] returns, for
    every header triple, the little-endian u32 at offsets 12..16 is
    len(entries).  The header argument is a triple (magic, version, flags):
    it has no slot through which a count could be passed. *)
Theorem pack_entries_count_derived (entries : list str) (header : Z * Z * Z)
    (metadata : option (list Z)) (buf : bytes) :
  pack_entries entries header metadata = Ok buf ->
  field_at buf 12 = len entries.
Proof.
  intros H. apply pack_entries_inv in H as (Hacc & ->).
  destruct header as [[h0 h1] h2].
  destruct Hacc as (_ & _ & _ & Hc & _).
  unfold layout, field_at.
  replace ((le_bytes 4 h0 ++ le_bytes 4 h1 ++ le_bytes 4 h2
            ++ le_bytes 4 (len entries))
           ++ concat (map slot_of entries)
           ++ concat (map (le_bytes 4) (resolve_metadata entries metadata)))
    with ((le_bytes 4 h0 ++ le_bytes 4 h1 ++ le_bytes 4 h2)
          ++ le_bytes 4 (len entries)
          ++ (concat (map slot_of entries)
              ++ concat (map (le_bytes 4) (resolve_metadata entries metadata))))
    by (now rewrite <- !app_assoc).
  rewrite slice_app_exact.
  - now apply int_from_le_bytes.
  - unfold len. rewrite !length_app, !length_le_bytes. reflexivity.
  - unfold len. rewrite !length_app, !length_le_bytes. reflexivity.
Qed.

Lemma pack_entries_count_derived_witness :
  field_at (layout [ascii_str "a"; ascii_str "bb"] (2008, 1, 7) [0; 0]) 12 = 2.
Proof.
  apply (pack_entries_count_derived
           [ascii_str "a"; ascii_str "bb"] (2008, 1, 7) None).
  vm_compute. reflexivity.
Defined.

Lemma pack_entries_header_overflow (entries : list str) (h0 h1 h2 : Z)
    (metadata : option (list Z)) :
  ~ u32 h0 \/ ~ u32 h1 \/ ~ u32 h2 ->
  pack_entries entries (h0, h1, h2) metadata = Err OverflowError.
Proof.
  intros H. unfold pack_entries.
  destruct (mapM (int_to_bytes 4) [h0; h1; h2]) as [hs|e] eqn:Eh.
  - apply mapM_int_to_bytes_inv in Eh as (Hh & _).
    inversion Hh as [|? ? H0 Hh']; subst.
    inversion Hh' as [|? ? H1 Hh'']; subst.
    inversion Hh'' as [|? ? H2 _]; subst.
    tauto.
  - apply mapM_int_to_bytes_err in Eh as ->. reflexivity.
Qed.

(** C9.  Implicit u32 range check: [pack_entries] raises, and returns no
    buffer, whenever one of the three header integers or one of the
    metadata values is negative or at least 2^32; for a header integer the
    exception is the OverflowError of the 4-byte conversion. *)
Theorem pack_entries_range_check (entries : list str) (h0 h1 h2 : Z)
    (metadata : option (list Z)) :
  (~ u32 h0 \/ ~ u32 h1 \/ ~ u32 h2 ->
   pack_entries entries (h0, h1, h2) metadata = Err OverflowError)
  /\ (forall m, metadata = Some m -> Exists (fun v => ~ u32 v) m ->
      exists e, pack_entries entries (h0, h1, h2) metadata = Err e).
Proof.
  split; [apply pack_entries_header_overflow|].
  intros m -> Hex.
  destruct (pack_entries entries (h0, h1, h2) (Some m)) as [buf|e] eqn:E;
    [|now exists e].
  apply pack_entries_inv in E as (Hacc & _).
  destruct Hacc as (_ & _ & _ & _ & _ & _ & Hmd). cbn in Hmd.
  apply Exists_exists in Hex as (v & Hin & Hv).
  rewrite Forall_forall in Hmd. elim Hv. now apply Hmd.
Qed.

Lemma pack_entries_range_check_witness :
  pack_entries [ascii_str "a"] (-1, 1, 7) None = Err OverflowError
  /\ exists e, pack_entries [ascii_str "a"] (2008, 1, 7) (Some [2 ^ 32])
               = Err e.
Proof.
  split.
  - apply (proj1 (pack_entries_range_check [ascii_str "a"] (-1) 1 7 None)).
    left. unfold u32. lia.
  - apply (proj2 (pack_entries_range_check
                    [ascii_str "a"] 2008 1 7 (Some [2 ^ 32])) [2 ^ 32]);
      [reflexivity|].
    apply Exists_cons_hd. unfold u32. lia.
Defined.

(** ** The UTF-8 codec: decoding an encoding *)

Lemma Ok_inj {A : Type} (a b : A) : Ok a = Ok b -> a = b.
Proof. intros H. now injection H. Qed.

Lemma utf8_decode_encode_char (c : Z) (cb rest : bytes) :
  utf8_encode_char c = Ok cb ->
  utf8_decode_replace (cb ++ rest) = c :: utf8_decode_replace rest.
Proof.
  unfold utf8_encode_char, is_surrogate.
  destruct (Z.ltb_spec c 0); [discriminate|].
  destruct (Z.ltb_spec c 0x80).
  { intros <-%Ok_inj. cbn [app utf8_decode_replace].
    rewrite !b2z_z2b by euclid. split_tests; reflexivity. }
  destruct (Z.ltb_spec c 0x800).
  { intros <-%Ok_inj.
    cbn [app utf8_decode_replace]. unfold is_continuation.
    rewrite !b2z_z2b by euclid. split_tests; f_equal; euclid. }
  destruct (Z.ltb_spec c 0x10000).
  { destruct (Z.leb_spec 0xD800 c); destruct (Z.leb_spec c 0xDFFF);
      cbn [andb]; try discriminate;
      intros <-%Ok_inj;
      cbn [app utf8_decode_replace]; unfold is_continuation;
      rewrite !b2z_z2b by euclid; split_tests; f_equal; euclid. }
  destruct (Z.ltb_spec c 0x110000); [|discriminate].
  intros <-%Ok_inj.
  cbn [app utf8_decode_replace]. unfold is_continuation.
  rewrite !b2z_z2b by euclid. split_tests; f_equal; euclid.
Qed.

Lemma utf8_encode_cons (c : Z) (s : str) (bs : bytes) :
  utf8_encode (c :: s) = Ok bs ->
  exists cb bs', utf8_encode_char c = Ok cb /\ utf8_encode s = Ok bs'
                 /\ bs = cb ++ bs'.
Proof.
  unfold utf8_encode. cbn [mapM].
  destruct (utf8_encode_char c) as [cb|e]; [|discriminate]. cbn [bind].
  destruct (mapM utf8_encode_char s) as [bss|e]; [|discriminate].
  cbn [bind concat]. intros <-%Ok_inj. now exists cb, (concat bss).
Qed.

Lemma utf8_decode_encode (s : str) (bs : bytes) :
  utf8_encode s = Ok bs -> utf8_decode_replace bs = s.
Proof.
  revert bs. induction s as [|c s IH]; intros bs H.
  - apply Ok_inj in H. now subst.
  - apply utf8_encode_cons in H as (cb & bs' & Hc & Hs & ->).
    rewrite (utf8_decode_encode_char c cb bs' Hc). f_equal. now apply IH.
Qed.

Lemma z2b_not_nul (v : Z) : 0 < v < 256 -> z2b v <> x00.
Proof.
  intros Hv E. pose proof (b2z_z2b v) as H. rewrite E in H.
  change (b2z x00) with 0 in H. lia.
Qed.

Lemma utf8_encode_char_no_nul (c : Z) (cb : bytes) :
  utf8_encode_char c = Ok cb -> c <> 0 -> ~ In x00 cb.
Proof.
  unfold utf8_encode_char.
  destruct (Z.ltb_spec c 0); [discriminate|].
  destruct (Z.ltb_spec c 0x80).
  { intros <-%Ok_inj Hc [E|[]]. revert E.
    apply z2b_not_nul. lia. }
  destruct (Z.ltb_spec c 0x800).
  { intros <-%Ok_inj _ Hin. cbn [In] in Hin.
    repeat (destruct Hin as [E|Hin];
            [revert E; apply z2b_not_nul; euclid|]).
    exact Hin. }
  destruct (Z.ltb_spec c 0x10000).
  { destruct (is_surrogate c); [discriminate|].
    intros <-%Ok_inj _ Hin. cbn [In] in Hin.
    repeat (destruct Hin as [E|Hin];
            [revert E; apply z2b_not_nul; euclid|]).
    exact Hin. }
  destruct (Z.ltb_spec c 0x110000); [|discriminate].
  intros <-%Ok_inj _ Hin. cbn [In] in Hin.
  repeat (destruct Hin as [E|Hin];
          [revert E; apply z2b_not_nul; euclid|]).
  exact Hin.
Qed.

Lemma utf8_encode_no_nul (s : str) (bs : bytes) :
  utf8_encode s = Ok bs -> nul_free s -> ~ In x00 bs.
Proof.
  revert bs. induction s as [|c s IH]; intros bs H Hs.
  - apply Ok_inj in H. now subst.
  - apply utf8_encode_cons in H as (cb & bs' & Hc & Hs' & ->).
    intros Hin. apply in_app_or in Hin as [Hin|Hin].
    + revert Hin. apply (utf8_encode_char_no_nul c cb Hc).
      intros ->. apply Hs. now left.
    + revert Hin. apply IH; [exact Hs'|]. intros H0. apply Hs. now right.
Qed.

Lemma before_nul_padding (n : nat) : before_nul (repeat x00 n) = [].
Proof. destruct n; reflexivity. Qed.

Lemma before_nul_padded (bs : bytes) (n : nat) :
  ~ In x00 bs -> before_nul (bs ++ repeat x00 n) = bs.
Proof.
  induction bs as [|b t IH]; intros H.
  - apply before_nul_padding.
  - cbn [app before_nul]. destruct (Byte.eqb b x00) eqn:E.
    + apply Byte.byte_dec_bl in E. elim H. now left.
    + f_equal. apply IH. intros Hin. apply H. now right.
Qed.

(** Decoding the slot of an entry gives the entry back, unless the entry
    has a U+0000 in it. *)
Lemma decode_slot_of (entry : str) :
  entry_ok entry -> nul_free entry ->
  utf8_decode_replace (before_nul (slot_of entry)) = entry.
Proof.
  intros (bs & Hb & _) Hn. unfold slot_of, ljust. rewrite Hb.
  rewrite before_nul_padded by (now apply (utf8_encode_no_nul entry)).
  now apply utf8_decode_encode.
Qed.

Lemma before_nul_app (p q : bytes) :
  ~ In x00 p -> before_nul (p ++ q) = p ++ before_nul q.
Proof.
  induction p as [|b t IH]; intros H; [reflexivity|].
  cbn [app before_nul]. destruct (Byte.eqb b x00) eqn:E.
  - apply Byte.byte_dec_bl in E. elim H. now left.
  - f_equal. apply IH. intros Hin. apply H. now right.
Qed.

Lemma str_before_nul_id (s : str) : str_before_nul s = s <-> nul_free s.
Proof.
  unfold nul_free. induction s as [|c t IH]; cbn [str_before_nul In].
  - tauto.
  - destruct (Z.eqb_spec c 0) as [->|Hc].
    + split; [discriminate|]. intros H. elim H. now left.
    + split.
      * intros E. injection E as E. intros [H|H]; [congruence|].
        now apply IH in H.
      * intros H. f_equal. apply IH. tauto.
Qed.

(** In general the slot of an entry decodes to the entry cut at its first
    U+0000. *)
Lemma decode_slot_cut (entry : str) :
  entry_ok entry -> decode_slot (slot_of entry) = str_before_nul entry.
Proof.
  intros (bs & Hb & _). unfold decode_slot, slot_of, ljust. rewrite Hb.
  generalize (Z.to_nat (ENTRY_SIZE - len bs)) as n. intros n.
  revert bs Hb. induction entry as [|c s IH]; intros bs Hb.
  - apply Ok_inj in Hb. subst bs. cbn [app concat str_before_nul].
    now rewrite before_nul_padding.
  - apply utf8_encode_cons in Hb as (cb & bs' & Hc & Hs & ->).
    cbn [str_before_nul]. destruct (Z.eqb_spec c 0) as [->|Hne].
    + apply Ok_inj in Hc. subst cb. reflexivity.
    + rewrite <- app_assoc, before_nul_app
        by (now apply (utf8_encode_char_no_nul c)).
      rewrite (utf8_decode_encode_char c cb _ Hc). f_equal. now apply IH.
Qed.

(** ** Framing: reading the chunks of a buffer back *)

Lemma len_concat_chunks {A : Type} (w : Z) (chunks : list (list A)) :
  Forall (fun c => len c = w) chunks -> len (concat chunks) = w * len chunks.
Proof.
  induction 1 as [|c cs Hc _ IH]; [unfold len; simpl; lia|].
  cbn [concat]. rewrite len_app, IH, Hc. unfold len. cbn [length]. lia.
Qed.

Lemma map_chunks {A B : Type} (w : Z) (f : list A -> B)
    (chunks : list (list A)) (pre post : list A) :
  Forall (fun c => len c = w) chunks ->
  map (fun idx => f (slice (pre ++ concat chunks ++ post)
                           (len pre + idx * w) (len pre + idx * w + w)))
      (range (len chunks))
  = map f chunks.
Proof.
  revert post. induction chunks as [|c cs IH] using rev_ind; intros post H.
  - reflexivity.
  - apply Forall_app in H as (Hcs & Hc).
    inversion Hc as [|? ? Hw _]; subst.
    rewrite len_app. change (len [c]) with 1.
    rewrite range_succ by apply len_nonneg.
    rewrite !map_app. cbn [map]. f_equal.
    + rewrite concat_app. cbn [concat]. rewrite app_nil_r, <- app_assoc.
      now apply IH.
    + f_equal. f_equal.
      rewrite concat_app. cbn [concat]. rewrite app_nil_r, <- app_assoc.
      rewrite (app_assoc pre).
      apply slice_app_exact.
      * rewrite len_app, (len_concat_chunks (len c)) by exact Hcs. lia.
      * rewrite len_app, (len_concat_chunks (len c)) by exact Hcs. lia.
Qed.

Lemma map_chunks_ext {A B : Type} (w : Z) (f : list A -> B) (g : Z -> B)
    (chunks : list (list A)) (pre post buf : list A) (n : Z) :
  Forall (fun c => len c = w) chunks ->
  buf = pre ++ concat chunks ++ post ->
  n = len chunks ->
  (forall idx, g idx = f (slice buf (len pre + idx * w) (len pre + idx * w + w))) ->
  map g (range n) = map f chunks.
Proof.
  intros Hw -> -> Hg. rewrite <- (map_chunks w f chunks pre post Hw).
  apply map_ext. exact Hg.
Qed.

Lemma field_at_app (pre post : bytes) (v : Z) (i : Z) :
  u32 v -> i = len pre -> field_at (pre ++ le_bytes 4 v ++ post) i = v.
Proof.
  intros Hv ->. unfold field_at. rewrite slice_app_exact.
  - now apply int_from_le_bytes.
  - reflexivity.
  - unfold len. rewrite length_le_bytes. lia.
Qed.

Lemma map_int_from_le_bytes (l : list Z) :
  Forall u32 l -> map int_from_bytes (map (le_bytes 4) l) = l.
Proof.
  induction 1 as [|v l Hv _ IH]; [reflexivity|].
  cbn [map]. rewrite IH. f_equal. now apply int_from_le_bytes.
Qed.

Lemma range_step_4 (n : Z) :
  0 <= n -> range_step (4 * n) 4 = map (fun k => k * 4) (range n).
Proof.
  intros Hn. unfold range_step. do 2 f_equal. euclid.
Qed.

(** The decoder applied to a laid out buffer. *)
Lemma parsed_layout (entries : list str) (h0 h1 h2 : Z) (md : list Z) :
  u32 h0 -> u32 h1 -> u32 h2 -> u32 (len entries) ->
  Forall entry_ok entries -> len md = len entries -> Forall u32 md ->
  let buf := layout entries (h0, h1, h2) md in
  len buf = expected_size buf
  /\ parsed buf
     = {| rec_header := {| magic := h0; version := h1; flags := h2;
                           count := len entries |};
          rec_entries := map (fun e => decode_slot (slot_of e)) entries;
          rec_metadata := md |}.
Proof.
  intros H0 H1 H2 Hc Hes Hlen Hmd buf.
  set (a := le_bytes 4 h0). set (b := le_bytes 4 h1).
  set (c := le_bytes 4 h2). set (d := le_bytes 4 (len entries)).
  set (body := concat (map slot_of entries)).
  set (trailer := concat (map (le_bytes 4) md)).
  assert (Hbuf : buf = (a ++ b ++ c ++ d) ++ body ++ trailer) by reflexivity.
  assert (La : len a = 4) by (unfold len, a; now rewrite length_le_bytes).
  assert (Lb : len b = 4) by (unfold len, b; now rewrite length_le_bytes).
  assert (Lc : len c = 4) by (unfold len, c; now rewrite length_le_bytes).
  assert (Ld : len d = 4) by (unfold len, d; now rewrite length_le_bytes).
  assert (Lbody : len body = 260 * len entries)
    by (now apply len_concat_slots).
  assert (Ltr : len trailer = 4 * len entries)
    by (unfold trailer; rewrite len_concat_le_bytes; lia).
  assert (F0 : field_at buf 0 = h0).
  { rewrite Hbuf.
    replace ((a ++ b ++ c ++ d) ++ body ++ trailer)
      with ([] ++ a ++ (b ++ c ++ d ++ body ++ trailer))
      by (cbn [app]; now rewrite <- !app_assoc).
    now apply field_at_app. }
  assert (F1 : field_at buf 4 = h1).
  { rewrite Hbuf.
    replace ((a ++ b ++ c ++ d) ++ body ++ trailer)
      with (a ++ b ++ (c ++ d ++ body ++ trailer))
      by (now rewrite <- !app_assoc).
    apply field_at_app; [assumption|lia]. }
  assert (F2 : field_at buf 8 = h2).
  { rewrite Hbuf.
    replace ((a ++ b ++ c ++ d) ++ body ++ trailer)
      with ((a ++ b) ++ c ++ (d ++ body ++ trailer))
      by (now rewrite <- !app_assoc).
    apply field_at_app; [assumption|rewrite len_app; lia]. }
  assert (F3 : field_at buf 12 = len entries).
  { rewrite Hbuf.
    replace ((a ++ b ++ c ++ d) ++ body ++ trailer)
      with ((a ++ b ++ c) ++ d ++ (body ++ trailer))
      by (now rewrite <- !app_assoc).
    apply field_at_app; [assumption|rewrite !len_app; lia]. }
  assert (Lhdr : len (a ++ b ++ c ++ d) = 16) by (rewrite !len_app; lia).
  split.
  { unfold expected_size. rewrite F3, Hbuf, !len_app.
    unfold ENTRY_SIZE. lia. }
  unfold parsed. rewrite F0, F1, F2, F3. f_equal.
  - rewrite <- (map_map slot_of decode_slot).
    apply (map_chunks_ext 260 decode_slot _ (map slot_of entries)
             (a ++ b ++ c ++ d) trailer buf).
    + apply Forall_map. revert Hes. apply Forall_impl.
      intros e He. now apply len_slot_of.
    + exact Hbuf.
    + unfold len. now rewrite length_map.
    + intros idx. rewrite Lhdr. reflexivity.
  - assert (Htr : slice_from buf (16 + len entries * ENTRY_SIZE) = trailer).
    { rewrite Hbuf, app_assoc. apply slice_from_app.
      rewrite len_app, Lhdr, Lbody. unfold ENTRY_SIZE. lia. }
    rewrite Htr, Ltr, range_step_4 by apply len_nonneg.
    rewrite map_map, <- (map_int_from_le_bytes md Hmd) at 1.
    apply (map_chunks_ext 4 int_from_bytes _ (map (le_bytes 4) md)
             [] [] trailer).
    + apply Forall_map, Forall_forall. intros v _. unfold len.
      now rewrite length_le_bytes.
    + cbn [app]. now rewrite app_nil_r.
    + unfold len in *. rewrite length_map. lia.
    + intros idx. change (len (@nil byte)) with 0. do 2 f_equal; lia.
Qed.

(** ** Encoding then decoding *)

(** Decoding a buffer [pack_entries] returned: the header triple, the count
    and the metadata come back as given, and each entry comes back as the
    decoded text of its slot up to the first NUL byte. *)
Lemma parse_pack_entries (entries : list str) (h0 h1 h2 : Z)
    (metadata : option (list Z)) (buf : bytes) :
  pack_entries entries (h0, h1, h2) metadata = Ok buf ->
  parse_entries buf
  = Ok {| rec_header := {| magic := h0; version := h1; flags := h2;
                           count := len entries |};
          rec_entries := map (fun e => decode_slot (slot_of e)) entries;
          rec_metadata := resolve_metadata entries metadata |}.
Proof.
  intros H. apply pack_entries_inv in H as (Hacc & ->).
  destruct Hacc as (H0 & H1 & H2 & Hc & Hes & Hlen & Hmd).
  destruct (parsed_layout entries h0 h1 h2
              (resolve_metadata entries metadata)
              H0 H1 H2 Hc Hes Hlen Hmd) as (Hsz & Hp).
  rewrite parse_entries_sized.
  - now rewrite Hp.
  - rewrite Hsz. unfold expected_size, ENTRY_SIZE.
    pose proof (field_at_u32
      (layout entries (h0, h1, h2) (resolve_metadata entries metadata)) 12)
      as [Hf _].
    lia.
  - exact Hsz.
Qed.

(** The entries read back from a packed buffer are the entries given,
    each cut at its first U+0000: they are the entries given exactly when
    none contains U+0000. *)
Lemma parse_pack_entries_cut (entries : list str) (h0 h1 h2 : Z)
    (metadata : option (list Z)) (buf : bytes) :
  pack_entries entries (h0, h1, h2) metadata = Ok buf ->
  exists r, parse_entries buf = Ok r
            /\ rec_entries r = map str_before_nul entries
            /\ (rec_entries r = entries <-> Forall nul_free entries).
Proof.
  intros H. pose proof (pack_entries_inv _ _ _ _ H) as (Hacc & _).
  destruct Hacc as (_ & _ & _ & _ & Hes & _).
  rewrite (parse_pack_entries _ _ _ _ _ _ H). eexists. split; [reflexivity|].
  cbn [rec_entries].
  assert (Hcut : map (fun e => decode_slot (slot_of e)) entries
                 = map str_before_nul entries).
  { apply map_ext_in. intros e He. apply decode_slot_cut.
    rewrite Forall_forall in Hes. now apply Hes. }
  rewrite Hcut. split; [reflexivity|].
  clear. induction entries as [|e es IH]; cbn [map].
  - split; [constructor|reflexivity].
  - split.
    + intros E. injection E as E1 E2. constructor.
      * now apply str_before_nul_id.
      * now apply IH.
    + intros Hn. inversion Hn; subst. f_equal.
      * now apply str_before_nul_id.
      * now apply IH.
Qed.

(** C1 (as amended).  Round trip: for entries that each have a UTF-8
    encoding of at most 260 bytes and contain no U+0000 character, header
    integers and metadata values that are u32, an entry count that is u32
    and a metadata list as long as the entry list,
    [parse_entries (pack_entries entries header metadata)] returns the
    header triple in magic/version/flags, the number of entries as count,
    the entries exactly and in order, and the metadata exactly and in
    order. *)
Theorem pack_parse_roundtrip (entries : list str) (h0 h1 h2 : Z)
    (metadata : list Z) :
  u32 h0 -> u32 h1 -> u32 h2 -> u32 (len entries) ->
  Forall entry_ok entries -> Forall nul_free entries ->
  len metadata = len entries -> Forall u32 metadata ->
  exists buf,
    pack_entries entries (h0, h1, h2) (Some metadata) = Ok buf
    /\ parse_entries buf
       = Ok {| rec_header := {| magic := h0; version := h1; flags := h2;
                                count := len entries |};
               rec_entries := entries;
               rec_metadata := metadata |}.
Proof.
  intros H0 H1 H2 Hc Hes Hnul Hlen Hmd.
  assert (Hacc : acceptable entries (h0, h1, h2) (Some metadata))
    by (repeat split; assumption || apply H0 || apply H1 || apply H2
                      || apply Hc).
  exists (layout entries (h0, h1, h2) metadata). split.
  - now apply (pack_entries_ok entries (h0, h1, h2) (Some metadata)).
  - rewrite (parse_pack_entries entries h0 h1 h2 (Some metadata))
      by (now apply (pack_entries_ok entries (h0, h1, h2) (Some metadata))).
    cbn [resolve_metadata]. do 2 f_equal.
    clear Hacc Hlen Hc. induction entries as [|e es IH]; [reflexivity|].
    inversion Hes; inversion Hnul; subst. cbn [map]. f_equal.
    + now apply decode_slot_of.
    + now apply IH.
Qed.

Lemma pack_parse_roundtrip_witness :
  exists buf,
    pack_entries [ascii_str "a"; ascii_str "bb"] (2008, 1, 7) (Some [5; 9])
    = Ok buf
    /\ parse_entries buf
       = Ok {| rec_header := {| magic := 2008; version := 1; flags := 7;
                                count := 2 |};
               rec_entries := [ascii_str "a"; ascii_str "bb"];
               rec_metadata := [5; 9] |}.
Proof.
  apply (pack_parse_roundtrip [ascii_str "a"; ascii_str "bb"] 2008 1 7 [5; 9]);
    try (unfold u32; cbn; lia).
  - repeat (apply Forall_cons || apply Forall_nil);
      (eexists; split; [vm_compute; reflexivity | vm_compute; discriminate]).
  - repeat (apply Forall_cons || apply Forall_nil);
      (intros Hin; cbn in Hin; intuition discriminate).
  - repeat (apply Forall_cons || apply Forall_nil); unfold u32; lia.
Defined.

(** C1, the claim as stated fails: the entry "a\x00b" has a 3-byte UTF-8
    encoding, but the slot is cut at its first NUL byte when it is read
    back, so the decoded entry is "a". *)
Lemma roundtrip_cut_at_embedded_nul :
  let entry := [97; 0; 98] in
  entry_ok entry
  /\ len [0] = len [entry]
  /\ exists buf,
       pack_entries [entry] (2008, 1, 7) (Some [0]) = Ok buf
       /\ parse_entries buf
          = Ok {| rec_header := {| magic := 2008; version := 1; flags := 7;
                                   count := 1 |};
                  rec_entries := [[97]];
                  rec_metadata := [0] |}
       /\ parse_entries buf
          <> Ok {| rec_header := {| magic := 2008; version := 1; flags := 7;
                                    count := 1 |};
                   rec_entries := [entry];
                   rec_metadata := [0] |}.
Proof.
  cbn zeta. split; [|split; [reflexivity|]].
  - eexists. split; [vm_compute; reflexivity | vm_compute; discriminate].
  - eexists. split; [vm_compute; reflexivity|].
    split; [vm_compute; reflexivity|].
    vm_compute. discriminate.
Qed.

(** C8 (as amended).  Concrete scenario: packing ["a", "bb"] with header
    (2008, 1, 7) and no metadata gives 544 bytes (16 + 2*260 + 2*4); the
    first 16 are D8 07 00 00 01 00 00 00 07 00 00 00 02 00 00 00; the first
    slot is the byte of 'a' and 259 zero bytes; the last 8 bytes are zero;
    and parsing the buffer gives header (2008, 1, 7, 2), entries
    ["a", "bb"] and metadata [0, 0]. *)
Theorem concrete_scenario :
  exists buf,
    pack_entries [ascii_str "a"; ascii_str "bb"] (2008, 1, 7) None = Ok buf
    /\ len buf = 544
    /\ slice buf 0 16
       = [xd8; x07; x00; x00; x01; x00; x00; x00;
          x07; x00; x00; x00; x02; x00; x00; x00]
    /\ slice buf 16 (16 + 260) = x61 :: repeat x00 259
    /\ slice_from buf (544 - 8) = repeat x00 8
    /\ parse_entries buf
       = Ok {| rec_header := {| magic := 2008; version := 1; flags := 7;
                                count := 2 |};
               rec_entries := [ascii_str "a"; ascii_str "bb"];
               rec_metadata := [0; 0] |}.
Proof.
  eexists. split; [vm_compute; reflexivity|].
  repeat split; vm_compute; reflexivity.
Qed.

(** C8, the claim as stated fails: the buffer of the scenario has 544
    bytes, not 552. *)
Lemma concrete_scenario_is_not_552_bytes :
  exists buf,
    pack_entries [ascii_str "a"; ascii_str "bb"] (2008, 1, 7) None = Ok buf
    /\ len buf = 544 /\ len buf <> 552.
Proof.
  eexists. split; [vm_compute; reflexivity|].
  split; [vm_compute; reflexivity | vm_compute; discriminate].
Qed.

(** ** Entry length and metadata checks *)

Lemma layout_split (entries : list str) (header : Z * Z * Z) (md : list Z) :
  layout entries header md
  = header_and_body entries header ++ concat (map (le_bytes 4) md).
Proof.
  destruct header as [[h0 h1] h2]. unfold layout, header_and_body.
  now rewrite <- !app_assoc.
Qed.

Lemma len_header_and_body (entries : list str) (header : Z * Z * Z) :
  Forall entry_ok entries ->
  len (header_and_body entries header) = 16 + 260 * len entries.
Proof.
  destruct header as [[h0 h1] h2]. intros Hes. unfold header_and_body.
  rewrite !len_app, len_concat_slots by exact Hes.
  unfold len. rewrite !length_le_bytes. lia.
Qed.

Lemma zero_trailer (n : nat) :
  concat (map (le_bytes 4) (repeat 0 n)) = repeat x00 (4 * n).
Proof.
  induction n as [|n IH]; [reflexivity|].
  replace (4 * S n)%nat with (4 + 4 * n)%nat by lia.
  cbn [repeat map concat]. rewrite IH. reflexivity.
Qed.

Lemma pack_body_too_long (pre post : list str) (entry : str)
    (encoded : bytes) :
  Forall entry_ok pre -> utf8_encode entry = Ok encoded ->
  len encoded > ENTRY_SIZE ->
  pack_body (pre ++ entry :: post) = Err (EntryTooLong (len encoded) entry).
Proof.
  intros Hpre Henc Hlong.
  induction Hpre as [|e es (bs & Hb & Hl) _ IH].
  - cbn [app pack_body]. rewrite Henc. cbn [bind].
    destruct (len encoded >? ENTRY_SIZE) eqn:E; [reflexivity|lia].
  - cbn [app pack_body]. rewrite Hb. cbn [bind].
    destruct (len bs >? ENTRY_SIZE) eqn:E; [lia|].
    rewrite IH. reflexivity.
Qed.

Lemma pack_entries_reaches_body (entries : list str) (h0 h1 h2 : Z)
    (metadata : option (list Z)) (e : error) :
  u32 h0 -> u32 h1 -> u32 h2 -> u32 (len entries) ->
  pack_body entries = Err e ->
  pack_entries entries (h0, h1, h2) metadata = Err e.
Proof.
  intros H0 H1 H2 Hc Hb. unfold pack_entries.
  rewrite mapM_int_to_bytes_ok
    by (repeat (apply Forall_cons; [assumption|]); apply Forall_nil).
  cbn [bind]. rewrite int_to_bytes_ok by exact Hc. cbn [bind].
  rewrite Hb. reflexivity.
Qed.

Lemma pack_entries_metadata_mismatch (entries : list str) (h0 h1 h2 : Z)
    (m : list Z) :
  u32 h0 -> u32 h1 -> u32 h2 -> u32 (len entries) ->
  Forall entry_ok entries -> len m <> len entries ->
  pack_entries entries (h0, h1, h2) (Some m)
  = Err (MetadataCountMismatch (len m) (len entries)).
Proof.
  intros H0 H1 H2 Hc Hes Hne. unfold pack_entries.
  rewrite mapM_int_to_bytes_ok
    by (repeat (apply Forall_cons; [assumption|]); apply Forall_nil).
  cbn [bind]. rewrite int_to_bytes_ok by exact Hc. cbn [bind].
  rewrite pack_body_ok by exact Hes. cbn [bind].
  destruct (len m =? len entries) eqn:E; [lia|]. reflexivity.
Qed.

(** C4 (as amended).  Entry length boundary and error payload: with header
    integers and an entry count that are u32, and the entries before it
    accepted, an entry whose UTF-8 encoding has at most 260 bytes, so also
    exactly 260, is accepted and its slot is the encoding followed by
    260 - length zero bytes (none at 260), provided the later entries and
    the metadata are accepted too; and an entry whose encoding exceeds 260
    bytes makes [pack_entries] raise EntryTooLong, which carries the
    encoded length and the entry text (no index), and nothing is
    truncated. *)
Theorem pack_entries_entry_length (pre post : list str) (entry : str)
    (encoded : bytes) (h0 h1 h2 : Z) (metadata : option (list Z)) :
  utf8_encode entry = Ok encoded ->
  u32 h0 -> u32 h1 -> u32 h2 -> u32 (len (pre ++ entry :: post)) ->
  Forall entry_ok pre ->
  (len encoded <= 260 ->
   Forall entry_ok post ->
   len (resolve_metadata (pre ++ entry :: post) metadata)
   = len (pre ++ entry :: post) ->
   Forall u32 (resolve_metadata (pre ++ entry :: post) metadata) ->
   exists buf,
     pack_entries (pre ++ entry :: post) (h0, h1, h2) metadata = Ok buf
     /\ slice buf (16 + 260 * len pre) (16 + 260 * len pre + 260)
        = encoded ++ repeat x00 (Z.to_nat (260 - len encoded)))
  /\ (len encoded > 260 ->
      pack_entries (pre ++ entry :: post) (h0, h1, h2) metadata
      = Err (EntryTooLong (len encoded) entry)).
Proof.
  intros Henc H0 H1 H2 Hc Hpre. split.
  - intros Hle Hpost Hlen Hmd.
    assert (He : entry_ok entry) by (exists encoded; split; assumption).
    assert (Hes : Forall entry_ok (pre ++ entry :: post))
      by (apply Forall_app; split; [|constructor]; assumption).
    eexists. split.
    + apply pack_entries_ok. repeat split; try assumption;
        apply H0 || apply H1 || apply H2 || apply Hc.
    + unfold layout. rewrite map_app, concat_app. cbn [map concat].
      set (hdr := le_bytes 4 h0 ++ le_bytes 4 h1 ++ le_bytes 4 h2
                  ++ le_bytes 4 (len (pre ++ entry :: post))).
      set (before := concat (map slot_of pre)).
      set (after := concat (map slot_of post)).
      set (trailer := concat (map (le_bytes 4) _)).
      replace (hdr ++ (before ++ slot_of entry ++ after) ++ trailer)
        with ((hdr ++ before) ++ slot_of entry ++ (after ++ trailer))
        by (now rewrite <- !app_assoc).
      assert (Lpre : len (hdr ++ before) = 16 + 260 * len pre).
      { unfold hdr, before.
        rewrite !len_app, len_concat_slots by exact Hpre.
        unfold len. rewrite !length_le_bytes. lia. }
      replace (encoded ++ repeat x00 (Z.to_nat (260 - len encoded)))
        with (slot_of entry)
        by (unfold slot_of, ljust; now rewrite Henc).
      apply slice_app_exact; [lia|].
      rewrite (len_slot_of entry He). lia.
  - intros Hlong. apply pack_entries_reaches_body; try assumption.
    now apply pack_body_too_long.
Qed.

Lemma pack_entries_entry_length_witness :
  (exists buf,
     pack_entries ([ascii_str "a"] ++ repeat 97 260 :: []) (2008, 1, 7) None
     = Ok buf
     /\ slice buf (16 + 260 * len [ascii_str "a"])
                  (16 + 260 * len [ascii_str "a"] + 260)
        = repeat x61 260
          ++ repeat x00 (Z.to_nat (260 - len (repeat x61 260))))
  /\ pack_entries ([ascii_str "a"] ++ repeat 97 261 :: []) (2008, 1, 7) None
     = Err (EntryTooLong (len (repeat x61 261)) (repeat 97 261)).
Proof.
  assert (Hpre : Forall entry_ok [ascii_str "a"]).
  { apply Forall_cons; [|apply Forall_nil].
    eexists. split; [vm_compute; reflexivity | vm_compute; discriminate]. }
  assert (Hu : forall v, 0 <= v < 2 ^ 32 -> u32 v) by (intros v Hv; exact Hv).
  split.
  - apply (proj1 (pack_entries_entry_length
                    [ascii_str "a"] [] (repeat 97 260) (repeat x61 260)
                    2008 1 7 None
                    ltac:(vm_compute; reflexivity)
                    ltac:(apply Hu; lia) ltac:(apply Hu; lia)
                    ltac:(apply Hu; lia) ltac:(apply Hu; cbn; lia) Hpre)).
    + vm_compute. discriminate.
    + apply Forall_nil.
    + reflexivity.
    + repeat (apply Forall_cons; [apply Hu; lia|]). apply Forall_nil.
  - apply (proj2 (pack_entries_entry_length
                    [ascii_str "a"] [] (repeat 97 261) (repeat x61 261)
                    2008 1 7 None
                    ltac:(vm_compute; reflexivity)
                    ltac:(apply Hu; lia) ltac:(apply Hu; lia)
                    ltac:(apply Hu; lia) ltac:(apply Hu; cbn; lia) Hpre)).
    vm_compute. reflexivity.
Defined.

(** C4, the claim as stated fails: the EntryTooLong raised for a too long
    entry at index 0 and the one raised for the same entry at index 1 are
    the same exception, made of the encoded length and the entry text, so
    no index is reported; and with a header integer out of range the
    exception is OverflowError, the entries are not even looked at. *)
Lemma entry_too_long_reports_no_index :
  let long := repeat 97 261 in
  pack_entries [long] (2008, 1, 7) None = Err (EntryTooLong 261 long)
  /\ pack_entries [ascii_str "a"; long] (2008, 1, 7) None
     = Err (EntryTooLong 261 long)
  /\ pack_entries [long] (-1, 1, 7) None = Err OverflowError.
Proof.
  cbn zeta. repeat split; vm_compute; reflexivity.
Qed.

(** C7 (as amended).  Metadata resolution: an absent metadata argument is
    replaced by [0] * len(entries); a metadata list whose length differs
    from len(entries) always makes [pack_entries] raise; and when the
    header integers and the entry count are u32 and every entry is
    accepted, so that the metadata step is reached: absent metadata gives
    a trailer of 4*len(entries) zero bytes, a length mismatch raises
    MetadataCountMismatch with the supplied and the expected count, and a
    list of matching length, of u32 values, gives as trailer its values as
    little-endian u32 in order. *)
Theorem pack_entries_metadata_resolution (entries : list str) (h0 h1 h2 : Z) :
  pack_entries entries (h0, h1, h2) None
  = pack_entries entries (h0, h1, h2) (Some (repeat 0 (length entries)))
  /\ (forall m, len m <> len entries ->
      exists e, pack_entries entries (h0, h1, h2) (Some m) = Err e)
  /\ (u32 h0 -> u32 h1 -> u32 h2 -> u32 (len entries) ->
      Forall entry_ok entries ->
      let prefix := header_and_body entries (h0, h1, h2) in
      len prefix = 16 + 260 * len entries
      /\ pack_entries entries (h0, h1, h2) None
         = Ok (prefix ++ repeat x00 (4 * length entries))
      /\ (forall m, len m <> len entries ->
          pack_entries entries (h0, h1, h2) (Some m)
          = Err (MetadataCountMismatch (len m) (len entries)))
      /\ (forall m, len m = len entries -> Forall u32 m ->
          pack_entries entries (h0, h1, h2) (Some m)
          = Ok (prefix ++ concat (map (le_bytes 4) m)))).
Proof.
  split; [reflexivity|]. split.
  { intros m Hne.
    destruct (pack_entries entries (h0, h1, h2) (Some m)) as [buf|e] eqn:E;
      [|now exists e].
    apply pack_entries_inv in E as (Hacc & _).
    destruct Hacc as (_ & _ & _ & _ & _ & Hlen & _). cbn in Hlen. lia. }
  intros H0 H1 H2 Hc Hes prefix.
  assert (Hok : forall m, len m = len entries -> Forall u32 m ->
                pack_entries entries (h0, h1, h2) (Some m)
                = Ok (prefix ++ concat (map (le_bytes 4) m))).
  { intros m Hlen Hmd. unfold prefix. rewrite <- layout_split.
    apply (pack_entries_ok entries (h0, h1, h2) (Some m)).
    repeat split; try assumption;
      apply H0 || apply H1 || apply H2 || apply Hc. }
  split; [now apply len_header_and_body|]. split; [|split].
  - change (pack_entries entries (h0, h1, h2) None)
      with (pack_entries entries (h0, h1, h2)
              (Some (repeat 0 (length entries)))).
    rewrite Hok, zero_trailer.
    + reflexivity.
    + unfold len. now rewrite repeat_length.
    + apply Forall_forall. intros v Hv. apply repeat_spec in Hv as ->.
      unfold u32. lia.
  - intros m Hne. now apply pack_entries_metadata_mismatch.
  - exact Hok.
Qed.

Lemma pack_entries_metadata_resolution_witness :
  pack_entries [ascii_str "a"; ascii_str "bb"] (2008, 1, 7) None
  = Ok (header_and_body [ascii_str "a"; ascii_str "bb"] (2008, 1, 7)
        ++ repeat x00 (4 * 2))
  /\ pack_entries [ascii_str "a"; ascii_str "bb"] (2008, 1, 7) (Some [5])
     = Err (MetadataCountMismatch 1 2)
  /\ pack_entries [ascii_str "a"; ascii_str "bb"] (2008, 1, 7) (Some [5; 9])
     = Ok (header_and_body [ascii_str "a"; ascii_str "bb"] (2008, 1, 7)
           ++ concat (map (le_bytes 4) [5; 9])).
Proof.
  assert (Hes : Forall entry_ok [ascii_str "a"; ascii_str "bb"]).
  { repeat (apply Forall_cons || apply Forall_nil);
      (eexists; split; [vm_compute; reflexivity | vm_compute; discriminate]). }
  assert (Hu : forall v, 0 <= v < 2 ^ 32 -> u32 v) by (intros v Hv; exact Hv).
  destruct (proj2 (proj2 (pack_entries_metadata_resolution
                            [ascii_str "a"; ascii_str "bb"] 2008 1 7))
              ltac:(apply Hu; lia) ltac:(apply Hu; lia) ltac:(apply Hu; lia)
              ltac:(apply Hu; cbn; lia) Hes)
    as (_ & Hnone & Hbad & Hgood).
  split; [exact Hnone|]. split.
  - apply (Hbad [5]). vm_compute. discriminate.
  - apply (Hgood [5; 9]); [reflexivity|].
    repeat (apply Forall_cons; [apply Hu; lia|]). apply Forall_nil.
Defined.

(** C7, the claim as stated fails: with a metadata list of the wrong
    length and an entry of 261 bytes, the exception is the EntryTooLong of
    the entry loop, which runs before the metadata is looked at. *)
Lemma metadata_mismatch_comes_after_entries :
  let long := repeat 97 261 in
  len (@nil Z) <> len [long]
  /\ pack_entries [long] (2008, 1, 7) (Some [])
     = Err (EntryTooLong 261 long)
  /\ pack_entries [long] (2008, 1, 7) (Some [])
     <> Err (MetadataCountMismatch 0 1).
Proof.
  cbn zeta. split; [vm_compute; discriminate|].
  split; [vm_compute; reflexivity | vm_compute; discriminate].
Qed.

(** ** Empty input *)

Lemma utf8_encode_err (s : str) (e : error) :
  utf8_encode s = Err e -> e = UnicodeEncodeError.
Proof.
  unfold utf8_encode.
  assert (H : forall e', mapM utf8_encode_char s = Err e' ->
                         e' = UnicodeEncodeError).
  { induction s as [|c s IH]; [discriminate|]. intros e'. cbn [mapM].
    destruct (utf8_encode_char c) as [cb|ec] eqn:Ec.
    - cbn [bind]. destruct (mapM utf8_encode_char s) as [bss|es];
        [discriminate|].
      cbn [bind]. intros E. injection E as <-. now apply IH.
    - cbn [bind]. intros E. injection E as <-.
      unfold utf8_encode_char in Ec.
      repeat match type of Ec with
             | (if ?t then _ else _) = _ => destruct t
             end; congruence. }
  destruct (mapM utf8_encode_char s) as [bss|e'] eqn:E; [discriminate|].
  cbn [bind]. intros E'. injection E' as <-. now apply H.
Qed.

Lemma pack_body_err (entries : list str) (e : error) :
  pack_body entries = Err e ->
  e = UnicodeEncodeError \/ exists n entry, e = EntryTooLong n entry.
Proof.
  induction entries as [|entry rest IH]; [discriminate|]. cbn [pack_body].
  destruct (utf8_encode entry) as [bs|e'] eqn:Eb; cbn [bind].
  - destruct (len bs >? ENTRY_SIZE).
    + intros E. injection E as <-. right. now eexists _, _.
    + destruct (pack_body rest) as [body|e']; [discriminate|].
      cbn [bind]. intros E. injection E as <-. now apply IH.
  - intros E. injection E as <-. left. now apply (utf8_encode_err entry).
Qed.

(** [pack_entries] has no check for an empty entry list. *)
Lemma pack_entries_never_empty_input (entries : list str)
    (header : Z * Z * Z) (metadata : option (list Z)) :
  pack_entries entries header metadata <> Err EmptyInput.
Proof.
  destruct header as [[h0 h1] h2]. unfold pack_entries.
  destruct (mapM (int_to_bytes 4) [h0; h1; h2]) as [hs|e] eqn:Eh.
  2: { apply mapM_int_to_bytes_err in Eh as ->. discriminate. }
  cbn [bind]. unfold int_to_bytes at 1.
  destruct (len entries <? 0); [discriminate|].
  destruct (256 ^ Z.of_nat 4 <=? len entries); [discriminate|].
  cbn [bind].
  destruct (pack_body entries) as [body|e] eqn:Eb.
  2: { apply pack_body_err in Eb as [->|(n & entry & ->)]; discriminate. }
  cbn [bind].
  match goal with |- (if ?t then _ else _) <> _ => destruct t end;
    [discriminate|].
  match goal with |- bind ?m _ <> _ => destruct m as [ts|e] eqn:Em end.
  - discriminate.
  - apply mapM_int_to_bytes_err in Em as ->. discriminate.
Qed.

Lemma pack_entries_empty (h0 h1 h2 : Z) :
  u32 h0 -> u32 h1 -> u32 h2 ->
  pack_entries [] (h0, h1, h2) None
  = Ok (le_bytes 4 h0 ++ le_bytes 4 h1 ++ le_bytes 4 h2
        ++ [x00; x00; x00; x00]).
Proof.
  intros H0 H1 H2.
  rewrite (pack_entries_ok [] (h0, h1, h2) None).
  - unfold layout. cbn [map concat resolve_metadata length repeat].
    now rewrite !app_nil_r.
  - repeat split; try (apply H0 || apply H1 || apply H2); try constructor;
      cbn; lia.
Qed.

Lemma filter_nil {A : Type} (f : A -> bool) (l : list A) :
  filter f l = [] <-> forall x, In x l -> f x = false.
Proof.
  induction l as [|a l IH]; cbn [filter In].
  - split; [intros _ x []|reflexivity].
  - destruct (f a) eqn:E.
    + split; [discriminate|]. intros H. rewrite (H a) in E by now left.
      discriminate.
    + rewrite IH. split.
      * intros H x [<-|Hx]; [exact E|now apply H].
      * intros H x Hx. apply H. now right.
Qed.

Section LoaderProperties.

Variable json_loads : str -> result json.
Variable py_str : json -> str.
Variable py_int : json -> result Z.

#[local] Abbreviation read := (read_entries json_loads py_str py_int).
#[local] Abbreviation load := (load_entries json_loads py_str py_int).
#[local] Abbreviation payload := (main_payload json_loads py_str py_int).

(** The test of line 34. *)
#[local] Abbreviation looks_like_json raw :=
  (startswith (lstrip raw) 123 || startswith (lstrip raw) 91).

Lemma load_entries_of_empty (raw : str) (md : option (list Z)) :
  read raw = Ok ([], md) -> load raw = Err EmptyInput.
Proof.
  intros H. unfold load_entries. rewrite H. reflexivity.
Qed.

Lemma load_entries_nonempty (raw : str) (es : list str)
    (md : option (list Z)) :
  load raw = Ok (es, md) -> es <> [].
Proof.
  unfold load_entries.
  destruct (read raw) as [[es' md']|e]; [|discriminate].
  cbn [bind fst]. destruct es' as [|x xs]; [discriminate|].
  intros E. injection E as <- _. discriminate.
Qed.

Lemma load_entries_text_empty_iff (raw : str) :
  looks_like_json raw = false ->
  (forall line, In line (splitlines raw) -> strip line = [])
  <-> load raw = Err EmptyInput.
Proof.
  intros Htext. unfold load_entries, read_entries. rewrite Htext.
  cbn [bind fst].
  set (nonblank := fun line : str =>
                     match strip line with [] => false | _ => true end).
  split.
  - intros Hblank.
    assert (Hf : filter nonblank (splitlines raw) = []).
    { apply filter_nil. intros line Hin. unfold nonblank.
      now rewrite (Hblank line Hin). }
    rewrite Hf. reflexivity.
  - intros H line Hin.
    destruct (filter nonblank (splitlines raw)) as [|x xs] eqn:Hf;
      [|discriminate].
    pose proof (proj1 (filter_nil nonblank (splitlines raw)) Hf line Hin)
      as Hl.
    unfold nonblank in Hl. destruct (strip line); [reflexivity|discriminate].
Qed.

(** C3 (as amended).  Empty-input rejection: the check for an empty entry
    list is in [load_entries], in front of the encoder, not in
    [pack_entries].  [load_entries] never returns an empty entry list, so
    every buffer the pack command produces comes from a non-empty list,
    and an exception of [load_entries] is the exception of the pack
    command, for every header triple.  On a plain-text input
    [load_entries] raises EmptyInput exactly when the text has no
    non-blank line.  On a JSON input it raises EmptyInput for an empty
    list, and for an object whose "entries" list (or "paths" list, when
    there is no "entries") is empty and whose "metadata" is absent, null
    or a list that [int] converts; when that "metadata" is not a list, or
    [int] fails on one of its values, the metadata exception is raised
    instead, the metadata checks coming before the emptiness check.
    [pack_entries] itself never raises EmptyInput: called with an empty
    entry list, u32 header integers and no metadata it returns the 16
    header bytes, with count 0. *)
Theorem empty_input_rejected_by_load_entries (raw : str) :
  (forall es md, load raw = Ok (es, md) -> es <> [])
  /\ (forall header buf, payload raw header = Ok buf ->
        exists es md, load raw = Ok (es, md) /\ es <> []
                      /\ pack_entries es header md = Ok buf)
  /\ (forall e header, load raw = Err e -> payload raw header = Err e)
  /\ (looks_like_json raw = false ->
        ((forall line, In line (splitlines raw) -> strip line = [])
         <-> load raw = Err EmptyInput))
  /\ (looks_like_json raw = true ->
        (json_loads raw = Ok (JList []) -> load raw = Err EmptyInput)
        /\ (forall d, json_loads raw = Ok (JDict d) ->
              dict_get d (ascii_str "entries") = Some (JList [])
              \/ (dict_get d (ascii_str "entries") = None
                  /\ dict_get d (ascii_str "paths") = Some (JList [])) ->
              load raw
              = match dict_get d (ascii_str "metadata") with
                | None | Some JNull => Err EmptyInput
                | Some (JList values) =>
                    match mapM py_int values with
                    | Ok _ => Err EmptyInput
                    | Err e => Err e
                    end
                | Some _ => Err MetadataNotAList
                end))
  /\ (forall header md, pack_entries [] header md <> Err EmptyInput)
  /\ (forall h0 h1 h2, u32 h0 -> u32 h1 -> u32 h2 ->
        pack_entries [] (h0, h1, h2) None
        = Ok (le_bytes 4 h0 ++ le_bytes 4 h1 ++ le_bytes 4 h2
              ++ [x00; x00; x00; x00])).
Proof.
  split; [apply load_entries_nonempty|].
  split.
  { intros header buf. unfold main_payload.
    destruct (load raw) as [[es md]|e] eqn:El; [|discriminate].
    cbn [bind fst snd]. intros Hp. exists es, md.
    split; [reflexivity|]. split; [|exact Hp].
    now apply (load_entries_nonempty raw es md). }
  split.
  { intros e header El. unfold main_payload. now rewrite El. }
  split; [apply load_entries_text_empty_iff|].
  split.
  { intros Hj. split.
    - intros Hl. unfold load_entries, read_entries.
      rewrite Hj, Hl. reflexivity.
    - intros d Hl Hentries. unfold load_entries, read_entries.
      rewrite Hj, Hl. cbn [bind].
      assert (Hsel : match dict_get d (ascii_str "entries") with
                     | Some v => v
                     | None =>
                         match dict_get d (ascii_str "paths") with
                         | Some v => v
                         | None => JDict d
                         end
                     end = JList []).
      { destruct Hentries as [->|[-> ->]]; reflexivity. }
      rewrite Hsel. cbn [map].
      destruct (dict_get d (ascii_str "metadata")) as [[| | | | |values|]|];
        try reflexivity.
      destruct (mapM py_int values); reflexivity. }
  split; [intros header md; apply pack_entries_never_empty_input|].
  apply pack_entries_empty.
Qed.

End LoaderProperties.

(** Inputs without entries: a text of blank lines and an empty JSON list
    give EmptyInput; an object with an empty "entries" list and a
    "metadata" string gives the metadata exception; [pack_entries] on an
    empty list returns the header. *)
Lemma empty_input_rejected_by_load_entries_witness :
  let no_json := fun _ : str => @Err json JSONDecodeError in
  let empty_list := fun _ : str => Ok (JList []) in
  let bad_metadata :=
    fun _ : str => Ok (JDict [(ascii_str "entries", JList []);
                              (ascii_str "metadata", JStr [120])]) in
  let py_str := fun j : json => match j with JStr s => s | _ => [] end in
  let py_int := fun j : json =>
                  match j with JInt z => Ok z | _ => Err IntConversionError end in
  load_entries no_json py_str py_int [32; 10; 10] = Err EmptyInput
  /\ main_payload no_json py_str py_int [32; 10; 10] (2008, 1, 7)
     = Err EmptyInput
  /\ load_entries empty_list py_str py_int [91; 93] = Err EmptyInput
  /\ load_entries bad_metadata py_str py_int [123; 125]
     = Err MetadataNotAList
  /\ pack_entries [] (2008, 1, 7) None
     = Ok (le_bytes 4 2008 ++ le_bytes 4 1 ++ le_bytes 4 7
           ++ [x00; x00; x00; x00]).
Proof.
  intros no_json empty_list bad_metadata py_str py_int.
  destruct (empty_input_rejected_by_load_entries
              no_json py_str py_int [32; 10; 10])
    as (_ & _ & Hmain & Htext & _ & _ & Hpack).
  assert (Hblank : load_entries no_json py_str py_int [32; 10; 10]
                   = Err EmptyInput).
  { apply (proj1 (Htext eq_refl)). intros line Hin.
    vm_compute in Hin. destruct Hin as [<-|[<-|[]]]; reflexivity. }
  split; [exact Hblank|]. split; [now apply Hmain|]. split; [|split].
  - destruct (empty_input_rejected_by_load_entries
                empty_list py_str py_int [91; 93])
      as (_ & _ & _ & _ & Hjson & _).
    now apply (proj1 (Hjson eq_refl)).
  - destruct (empty_input_rejected_by_load_entries
                bad_metadata py_str py_int [123; 125])
      as (_ & _ & _ & _ & Hjson & _).
    apply (proj2 (Hjson eq_refl)
             [(ascii_str "entries", JList []);
              (ascii_str "metadata", JStr [120])] eq_refl).
    left. reflexivity.
  - apply Hpack; unfold u32; lia.
Defined.

(** C3, the claim as stated fails: [pack_entries] called with no entries,
    the default header and no metadata returns a buffer, the 16 header
    bytes with count 0. *)
Lemma pack_entries_accepts_no_entries :
  pack_entries [] (2008, 1, 7) None
  = Ok [xd8; x07; x00; x00; x01; x00; x00; x00;
        x07; x00; x00; x00; x00; x00; x00; x00]
  /\ pack_entries [] (2008, 1, 7) None <> Err EmptyInput.
Proof.
  split; [vm_compute; reflexivity | vm_compute; discriminate].
Qed.

(* ================================================================== *)
(** * Further properties *)

(** ** What the decoder produces *)

(** One step of the decoder: it emits one character and resumes on a
    suffix of the remaining bytes; the character is the first byte itself
    when that is ASCII, and otherwise a scalar value from U+0080 up. *)
Lemma utf8_decode_step (c1 : byte) (t1 : bytes) :
  exists (c : Z) (rest : bytes),
    utf8_decode_replace (c1 :: t1) = c :: utf8_decode_replace rest
    /\ (length rest <= length t1)%nat
    /\ incl rest t1
    /\ ((c = b2z c1 /\ c < 0x80)
        \/ 0x80 <= c < 0xD800 \/ 0xDFFF < c < 0x110000).
Proof.
  pose proof (b2z_range c1) as R1.
  assert (Hend : forall c : Z,
             [c] = c :: utf8_decode_replace []) by reflexivity.
  cbn [utf8_decode_replace]. unfold is_continuation, REPLACEMENT.
  destruct t1 as [|c2 [|c3 [|c4 t4]]];
    try pose proof (b2z_range c2) as R2;
    try pose proof (b2z_range c3) as R3;
    try pose proof (b2z_range c4) as R4;
    split_tests;
    first [ rewrite Hend | idtac ];
    (eexists _, _; split; [reflexivity|]; split; [cbn [length]; lia|];
     split; [intros x Hx; cbn [In] in *; tauto | lia]).
Qed.

(** Properties of the input bytes and of the output characters that the
    decoder carries from one to the other. *)
Lemma utf8_decode_Forall (P : byte -> Prop) (Q : Z -> Prop) :
  (forall b, P b -> b2z b < 0x80 -> Q (b2z b)) ->
  (forall c, 0x80 <= c < 0xD800 \/ 0xDFFF < c < 0x110000 -> Q c) ->
  forall bs, Forall P bs -> Forall Q (utf8_decode_replace bs).
Proof.
  intros Hascii Hhigh bs.
  remember (length bs) as n eqn:Hn. revert bs Hn.
  induction n as [n IH] using lt_wf_ind. intros [|c1 t1] Hn HP.
  - constructor.
  - destruct (utf8_decode_step c1 t1) as (c & rest & -> & Hlen & Hincl & Hc).
    inversion HP as [|? ? HP1 HPt]; subst. constructor.
    + destruct Hc as [[-> Hlt]|Hc]; [now apply Hascii | now apply Hhigh].
    + apply (IH (length rest)); [cbn [length]; lia | reflexivity |].
      apply Forall_forall. intros x Hx.
      rewrite Forall_forall in HPt. apply HPt, Hincl, Hx.
Qed.

Lemma utf8_decode_length (bs : bytes) :
  (length (utf8_decode_replace bs) <= length bs)%nat.
Proof.
  remember (length bs) as n eqn:Hn. revert bs Hn.
  induction n as [n IH] using lt_wf_ind. intros [|c1 t1] Hn.
  - cbn. lia.
  - destruct (utf8_decode_step c1 t1) as (c & rest & -> & Hlen & _).
    cbn [length] in *. specialize (IH (length rest) ltac:(lia) rest eq_refl).
    lia.
Qed.

Lemma before_nul_no_nul (bs : bytes) : ~ In x00 (before_nul bs).
Proof.
  induction bs as [|b t IH]; [easy|]. cbn [before_nul].
  destruct (Byte.eqb b x00) eqn:E; [easy|].
  apply Byte.eqb_false in E. cbn [In]. intros [H|H]; [congruence|tauto].
Qed.

Lemma before_nul_length (bs : bytes) :
  (length (before_nul bs) <= length bs)%nat.
Proof.
  induction bs as [|b t IH]; [cbn; lia|]. cbn [before_nul].
  destruct (Byte.eqb b x00); cbn [length]; lia.
Qed.

Lemma b2z_nul (b : byte) : b2z b = 0 -> b = x00.
Proof. intros H. rewrite <- (z2b_b2z b), H. reflexivity. Qed.

Lemma decode_slot_nul_free (chunk : bytes) : nul_free (decode_slot chunk).
Proof.
  unfold decode_slot, nul_free. intros Hin.
  assert (H : Forall (fun c => c <> 0)
                     (utf8_decode_replace (before_nul chunk))).
  { apply (utf8_decode_Forall (fun b => b <> x00)).
    - intros b Hb _ E. now apply Hb, b2z_nul.
    - intros c Hc. lia.
    - apply Forall_forall. intros b Hb ->.
      now apply (before_nul_no_nul chunk). }
  rewrite Forall_forall in H. now apply (H 0 Hin).
Qed.

Lemma decode_slot_scalar (chunk : bytes) :
  Forall scalar_value (decode_slot chunk).
Proof.
  unfold decode_slot. apply (utf8_decode_Forall (fun _ => True)).
  - intros b _ Hb. pose proof (b2z_range b). unfold scalar_value. lia.
  - intros c Hc. unfold scalar_value. lia.
  - apply Forall_forall. easy.
Qed.

Lemma decode_slot_length (chunk : bytes) :
  len (decode_slot chunk) <= len chunk.
Proof.
  unfold decode_slot, len.
  pose proof (utf8_decode_length (before_nul chunk)).
  pose proof (before_nul_length chunk). lia.
Qed.

Lemma parse_entries_entries (data : bytes) (r : record) (e : str) :
  parse_entries data = Ok r -> In e (rec_entries r) ->
  exists chunk, e = decode_slot chunk /\ len chunk <= 260.
Proof.
  intros H Hin. apply parse_entries_inv in H as (_ & _ & ->).
  unfold parsed in Hin. cbn [rec_entries] in Hin.
  apply in_map_iff in Hin as (idx & <- & _).
  eexists. split; [reflexivity|].
  match goal with |- len (slice ?l ?a ?b) <= _ =>
    pose proof (length_slice_le l a b) as Hl end.
  unfold len, ENTRY_SIZE in *. lia.
Qed.

(** X1.  Every entry [parse_entries] returns is free of U+0000 and has at
    most 260 characters. *)
Theorem parse_entries_entries_bounded (data : bytes) (r : record) :
  parse_entries data = Ok r ->
  Forall (fun e => nul_free e /\ len e <= 260) (rec_entries r).
Proof.
  intros H. apply Forall_forall. intros e Hin.
  destruct (parse_entries_entries data r e H Hin) as (chunk & -> & Hl).
  split; [apply decode_slot_nul_free|].
  pose proof (decode_slot_length chunk). lia.
Qed.

(** ** What the encoder accepts *)

Lemma utf8_encode_char_scalar (c : Z) :
  scalar_value c ->
  exists cb, utf8_encode_char c = Ok cb /\ 1 <= len cb <= 4.
Proof.
  unfold scalar_value, utf8_encode_char, is_surrogate. intros Hc.
  split_tests; (eexists; split; [reflexivity | unfold len; cbn [length]; lia]).
Qed.

Lemma utf8_encode_char_inv (c : Z) (cb : bytes) :
  utf8_encode_char c = Ok cb -> scalar_value c /\ 1 <= len cb <= 4.
Proof.
  unfold scalar_value, utf8_encode_char, is_surrogate.
  split_tests; try discriminate;
    (intros <-%Ok_inj; split; [lia | unfold len; cbn [length]; lia]).
Qed.

Lemma utf8_encode_scalar (s : str) :
  Forall scalar_value s ->
  exists bs, utf8_encode s = Ok bs /\ len s <= len bs <= 4 * len s.
Proof.
  induction 1 as [|c s Hc _ (bs & Hb & Hl)].
  - exists []. split; [reflexivity | unfold len; cbn; lia].
  - destruct (utf8_encode_char_scalar c Hc) as (cb & Hcb & Hlc).
    exists (cb ++ bs). split.
    + unfold utf8_encode in *. cbn [mapM]. rewrite Hcb. cbn [bind].
      destruct (mapM utf8_encode_char s) as [bss|e]; [|discriminate].
      cbn [bind] in *. apply Ok_inj in Hb. subst bs. reflexivity.
    + rewrite len_app. unfold len in *. cbn [length]. lia.
Qed.

Lemma utf8_encode_inv (s : str) (bs : bytes) :
  utf8_encode s = Ok bs ->
  Forall scalar_value s /\ len s <= len bs <= 4 * len s.
Proof.
  revert bs. induction s as [|c s IH]; intros bs H.
  - apply Ok_inj in H. subst bs. split; [constructor | unfold len; cbn; lia].
  - apply utf8_encode_cons in H as (cb & bs' & Hc & Hs & ->).
    apply utf8_encode_char_inv in Hc as (Hc & Hlc).
    destruct (IH bs' Hs) as (Hall & Hl). split; [now constructor|].
    rewrite len_app. unfold len in *. cbn [length]. lia.
Qed.

(** X2.  The strings [parse_entries] returns are made of Unicode scalar
    values only, so [str.encode] accepts each of them. *)
Theorem parse_entries_entries_encodable (data : bytes) (r : record) :
  parse_entries data = Ok r ->
  Forall (fun e => Forall scalar_value e
                   /\ exists bs, utf8_encode e = Ok bs)
         (rec_entries r).
Proof.
  intros H. apply Forall_forall. intros e Hin.
  destruct (parse_entries_entries data r e H Hin) as (chunk & -> & _).
  pose proof (decode_slot_scalar chunk) as Hs. split; [exact Hs|].
  destruct (utf8_encode_scalar _ Hs) as (bs & Hb & _). now exists bs.
Qed.

Lemma parse_entries_entries_bounded_witness :
  let data := le_bytes 4 2008 ++ le_bytes 4 1 ++ le_bytes 4 7
              ++ le_bytes 4 1 ++ (x80 :: x61 :: repeat x00 258)
              ++ le_bytes 4 0 in
  Forall (fun e => nul_free e /\ len e <= 260) (rec_entries (parsed data)).
Proof.
  intros data. apply (parse_entries_entries_bounded data (parsed data)).
  vm_compute. reflexivity.
Defined.

Lemma parse_entries_entries_encodable_witness :
  let data := le_bytes 4 2008 ++ le_bytes 4 1 ++ le_bytes 4 7
              ++ le_bytes 4 1 ++ (x80 :: x61 :: repeat x00 258)
              ++ le_bytes 4 0 in
  Forall (fun e => Forall scalar_value e
                   /\ exists bs, utf8_encode e = Ok bs)
         (rec_entries (parsed data)).
Proof.
  intros data. apply (parse_entries_entries_encodable data (parsed data)).
  vm_compute. reflexivity.
Defined.

Lemma entry_ok_short (e : str) :
  Forall scalar_value e -> len e <= 65 -> entry_ok e.
Proof.
  intros Hs Hl. destruct (utf8_encode_scalar e Hs) as (bs & Hb & Hlb).
  exists bs. split; [exact Hb | unfold ENTRY_SIZE; lia].
Qed.

(** X3.  An entry of at most 65 characters, none of them a surrogate,
    always fits its slot: with u32 header integers, fewer than 2^32 entries
    and no metadata, [pack_entries] returns a buffer for every list of such
    entries. *)
Theorem pack_entries_accepts_short_entries (entries : list str)
    (h0 h1 h2 : Z) :
  u32 h0 -> u32 h1 -> u32 h2 -> u32 (len entries) ->
  Forall (fun e => Forall scalar_value e /\ len e <= 65) entries ->
  exists buf, pack_entries entries (h0, h1, h2) None = Ok buf.
Proof.
  intros H0 H1 H2 Hc Hes. eexists. apply pack_entries_ok.
  split; [exact H0|]. split; [exact H1|]. split; [exact H2|].
  split; [exact Hc|]. split; [|split].
  - revert Hes. apply Forall_impl. intros e [Hs Hl]. now apply entry_ok_short.
  - cbn [resolve_metadata]. unfold len. now rewrite repeat_length.
  - cbn [resolve_metadata]. apply Forall_forall. intros v Hv.
    apply repeat_spec in Hv as ->. unfold u32. lia.
Qed.

Lemma pack_entries_accepts_short_entries_witness :
  exists buf,
    pack_entries [[0x10FFFF; 0x20AC]; [98; 98]] (2008, 1, 7) None
    = Ok buf.
Proof.
  apply (pack_entries_accepts_short_entries
           [[0x10FFFF; 0x20AC]; [98; 98]] 2008 1 7);
    try (unfold u32; cbn; lia).
  repeat (apply Forall_cons || apply Forall_nil);
    (split; [|cbn; lia]);
    repeat (apply Forall_cons || apply Forall_nil); unfold scalar_value; lia.
Defined.

(** X4.  An entry of more than 260 characters never fits: whatever the
    header and the metadata, [pack_entries] raises when one of the entries
    has more than 260 characters. *)
Theorem pack_entries_rejects_long_text (entries : list str) (entry : str)
    (header : Z * Z * Z) (metadata : option (list Z)) :
  In entry entries -> len entry > 260 ->
  exists e, pack_entries entries header metadata = Err e.
Proof.
  intros Hin Hlong.
  destruct (pack_entries entries header metadata) as [buf|e] eqn:E;
    [|now exists e].
  apply pack_entries_inv in E as (Hacc & _). destruct header as [[h0 h1] h2].
  destruct Hacc as (_ & _ & _ & _ & Hes & _).
  rewrite Forall_forall in Hes. destruct (Hes entry Hin) as (bs & Hb & Hl).
  apply utf8_encode_inv in Hb as (_ & Hlb). unfold ENTRY_SIZE in Hl. lia.
Qed.

Lemma pack_entries_rejects_long_text_witness :
  exists e,
    pack_entries [ascii_str "a"; repeat 0x20AC 261] (2008, 1, 7) None = Err e.
Proof.
  apply (pack_entries_rejects_long_text
           [ascii_str "a"; repeat 0x20AC 261] (repeat 0x20AC 261)).
  - right. left. reflexivity.
  - vm_compute. reflexivity.
Defined.

Lemma utf8_encode_surrogate (s : str) (c : Z) :
  In c s -> is_surrogate c = true -> utf8_encode s = Err UnicodeEncodeError.
Proof.
  intros Hin Hsur. destruct (utf8_encode s) as [bs|e] eqn:E.
  - apply utf8_encode_inv in E as (Hall & _).
    rewrite Forall_forall in Hall. specialize (Hall c Hin).
    unfold scalar_value, is_surrogate in *.
    apply andb_true_iff in Hsur as [Ha Hb]. lia.
  - now rewrite (utf8_encode_err s e E).
Qed.

Lemma pack_body_encode_error (pre post : list str) (entry : str) (e : error) :
  Forall entry_ok pre -> utf8_encode entry = Err e ->
  pack_body (pre ++ entry :: post) = Err e.
Proof.
  intros Hpre Henc. induction Hpre as [|x xs (bs & Hb & Hl) _ IH].
  - cbn [app pack_body]. rewrite Henc. reflexivity.
  - cbn [app pack_body]. rewrite Hb. cbn [bind].
    destruct (len bs >? ENTRY_SIZE) eqn:E; [lia|]. rewrite IH. reflexivity.
Qed.

(** X5.  An entry with a surrogate code point (U+D800..U+DFFF) makes
    [pack_entries] raise UnicodeEncodeError, whatever its length, when the
    header integers and the entry count are u32 and the entries before it
    are accepted. *)
Theorem pack_entries_surrogate (pre post : list str) (entry : str) (c : Z)
    (h0 h1 h2 : Z) (metadata : option (list Z)) :
  u32 h0 -> u32 h1 -> u32 h2 -> u32 (len (pre ++ entry :: post)) ->
  Forall entry_ok pre ->
  In c entry -> is_surrogate c = true ->
  pack_entries (pre ++ entry :: post) (h0, h1, h2) metadata
  = Err UnicodeEncodeError.
Proof.
  intros H0 H1 H2 Hc Hpre Hin Hsur.
  apply pack_entries_reaches_body; try assumption.
  apply pack_body_encode_error; [exact Hpre|].
  now apply (utf8_encode_surrogate entry c).
Qed.

Lemma pack_entries_surrogate_witness :
  pack_entries ([ascii_str "a"] ++ (0xD800 :: repeat 97 300) :: [])
               (2008, 1, 7) None
  = Err UnicodeEncodeError.
Proof.
  apply (pack_entries_surrogate [ascii_str "a"] [] _ 0xD800);
    try (unfold u32; cbn; lia).
  apply Forall_cons; [|apply Forall_nil].
  eexists. split; [vm_compute; reflexivity | vm_compute; discriminate].
Defined.

(** ** The exceptions of the encoder *)






(** ** Encoder and decoder together *)

Lemma map_str_before_nul (entries : list str) :
  Forall nul_free entries -> map str_before_nul entries = entries.
Proof.
  induction 1 as [|e es He _ IH]; [reflexivity|].
  cbn [map]. rewrite IH. f_equal. now apply str_before_nul_id.
Qed.

Lemma str_before_nul_nul_free (s : str) : nul_free (str_before_nul s).
Proof.
  unfold nul_free. induction s as [|c t IH]; [easy|]. cbn [str_before_nul].
  destruct (Z.eqb_spec c 0); [easy|]. cbn [In]. intros [H|H]; [lia|tauto].
Qed.

Lemma str_before_nul_entry_ok (s : str) :
  entry_ok s -> entry_ok (str_before_nul s).
Proof.
  intros (bs & Hb & Hl).
  assert (H : exists bs', utf8_encode (str_before_nul s) = Ok bs'
                          /\ len bs' <= len bs).
  { clear Hl. revert bs Hb. induction s as [|c t IH]; intros bs Hb.
    - exists bs. split; [exact Hb|lia].
    - apply utf8_encode_cons in Hb as (cb & bs' & Hc & Ht & ->).
      cbn [str_before_nul]. destruct (Z.eqb_spec c 0).
      + exists []. split; [reflexivity|]. pose proof (len_nonneg (cb ++ bs')).
        change (len (@nil byte)) with 0. lia.
      + destruct (IH bs' Ht) as (bt & Hbt & Hlt). exists (cb ++ bt). split.
        * unfold utf8_encode in *. cbn [mapM]. rewrite Hc. cbn [bind].
          destruct (mapM utf8_encode_char (str_before_nul t)) as [bss|e];
            [|discriminate].
          cbn [bind] in *. apply Ok_inj in Hbt. subst bt. reflexivity.
        * rewrite !len_app. lia. }
  destruct H as (bs' & Hb' & Hl'). exists bs'. split; [exact Hb'|lia].
Qed.

Lemma parse_pack_entries_before_nul (entries : list str) (h0 h1 h2 : Z)
    (metadata : option (list Z)) (buf : bytes) :
  pack_entries entries (h0, h1, h2) metadata = Ok buf ->
  parse_entries buf
  = Ok {| rec_header := {| magic := h0; version := h1; flags := h2;
                           count := len entries |};
          rec_entries := map str_before_nul entries;
          rec_metadata := resolve_metadata entries metadata |}.
Proof.
  intros H. pose proof (pack_entries_inv _ _ _ _ H) as (Hacc & _).
  destruct Hacc as (_ & _ & _ & _ & Hes & _).
  rewrite (parse_pack_entries _ _ _ _ _ _ H). do 2 f_equal.
  apply map_ext_in. intros e He. apply decode_slot_cut.
  rewrite Forall_forall in Hes. now apply Hes.
Qed.

(** X7.  Every buffer [pack_entries] returns is accepted by
    [parse_entries]: the decoded header is the given triple with
    len(entries) as count, the decoded metadata is the given metadata
    (zeros when none was given), and the decoded entries are the given
    entries, each cut at its first U+0000. *)
Theorem pack_entries_decodable (entries : list str) (h0 h1 h2 : Z)
    (metadata : option (list Z)) (buf : bytes) :
  pack_entries entries (h0, h1, h2) metadata = Ok buf ->
  parse_entries buf
  = Ok {| rec_header := {| magic := h0; version := h1; flags := h2;
                           count := len entries |};
          rec_entries := map str_before_nul entries;
          rec_metadata :=
            match metadata with
            | Some m => m
            | None => repeat 0 (length entries)
            end |}.
Proof.
  intros H. now rewrite (parse_pack_entries_before_nul _ _ _ _ _ _ H).
Qed.

Lemma pack_entries_decodable_witness :
  parse_entries (layout [[97; 0; 98]; ascii_str "bb"] (2008, 1, 7) [0; 0])
  = Ok {| rec_header := {| magic := 2008; version := 1; flags := 7;
                           count := len [[97; 0; 98]; ascii_str "bb"] |};
          rec_entries := map str_before_nul [[97; 0; 98]; ascii_str "bb"];
          rec_metadata := repeat 0 (length [[97; 0; 98]; ascii_str "bb"]) |}.
Proof.
  apply (pack_entries_decodable [[97; 0; 98]; ascii_str "bb"] 2008 1 7 None).
  vm_compute. reflexivity.
Defined.

(** X8.  [pack_entries] is injective on entries without U+0000: two
    accepted inputs that give the same buffer have the same entries, the
    same header triple and the same metadata (an absent metadata counting
    as zeros). *)
Theorem pack_entries_injective (entries entries' : list str)
    (header header' : Z * Z * Z) (metadata metadata' : option (list Z))
    (buf : bytes) :
  pack_entries entries header metadata = Ok buf ->
  pack_entries entries' header' metadata' = Ok buf ->
  Forall nul_free entries -> Forall nul_free entries' ->
  entries = entries' /\ header = header'
  /\ resolve_metadata entries metadata = resolve_metadata entries' metadata'.
Proof.
  destruct header as [[h0 h1] h2], header' as [[h0' h1'] h2'].
  intros H H' Hn Hn'.
  assert (Hd : forall es h md,
             pack_entries es h md = Ok buf -> Forall nul_free es ->
             map (fun e => decode_slot (slot_of e)) es = es).
  { intros es h md Hp Hnul. apply pack_entries_inv in Hp as (Hacc & _).
    destruct h as [[a b] c]. destruct Hacc as (_ & _ & _ & _ & Hok & _).
    rewrite <- (map_str_before_nul es Hnul) at 2.
    apply map_ext_in. intros e He. apply decode_slot_cut.
    rewrite Forall_forall in Hok. now apply Hok. }
  pose proof (Hd _ _ _ H Hn) as Hes. pose proof (Hd _ _ _ H' Hn') as Hes'.
  apply parse_pack_entries in H. apply parse_pack_entries in H'.
  rewrite H in H'. injection H' as E0 E1 E2 _ Ee Em.
  rewrite Hes, Hes' in Ee. subst. now repeat split.
Qed.

Lemma pack_entries_injective_witness :
  [ascii_str "a"; ascii_str "bb"] = [ascii_str "a"; ascii_str "bb"]
  /\ (2008, 1, 7) = (2008, 1, 7)
  /\ resolve_metadata [ascii_str "a"; ascii_str "bb"] None
     = resolve_metadata [ascii_str "a"; ascii_str "bb"] (Some [0; 0]).
Proof.
  apply (pack_entries_injective _ _ _ _ _ _
           (layout [ascii_str "a"; ascii_str "bb"] (2008, 1, 7) [0; 0])).
  - vm_compute. reflexivity.
  - vm_compute. reflexivity.
  - repeat (apply Forall_cons || apply Forall_nil);
      (intros Hin; cbn in Hin; intuition discriminate).
  - repeat (apply Forall_cons || apply Forall_nil);
      (intros Hin; cbn in Hin; intuition discriminate).
Defined.

(** X9.  Packing what was decoded from a packed buffer: for every buffer
    [pack_entries] returns, packing the decoded header triple, entries and
    metadata succeeds and gives a buffer that decodes to the same record;
    when no entry has a U+0000 it gives the same buffer, byte for byte. *)
Theorem repack_after_parse (entries : list str) (h0 h1 h2 : Z)
    (metadata : option (list Z)) (buf : bytes) :
  pack_entries entries (h0, h1, h2) metadata = Ok buf ->
  exists r buf',
    parse_entries buf = Ok r
    /\ pack_entries (rec_entries r)
                    (magic (rec_header r), version (rec_header r),
                     flags (rec_header r))
                    (Some (rec_metadata r))
       = Ok buf'
    /\ parse_entries buf' = Ok r
    /\ (Forall nul_free entries -> buf' = buf).
Proof.
  intros H. pose proof (pack_entries_inv _ _ _ _ H) as (Hacc & Hbuf).
  destruct Hacc as (H0 & H1 & H2 & Hc & Hes & Hlen & Hmd).
  set (es' := map str_before_nul entries).
  set (md := resolve_metadata entries metadata) in *.
  assert (Hlen' : len es' = len entries)
    by (unfold es', len; now rewrite length_map).
  assert (Hacc' : acceptable es' (h0, h1, h2) (Some md)).
  { split; [exact H0|]. split; [exact H1|]. split; [exact H2|].
    split; [now rewrite Hlen'|]. split; [|split].
    - unfold es'. apply Forall_map. revert Hes. apply Forall_impl.
      intros e. apply str_before_nul_entry_ok.
    - cbn [resolve_metadata]. now rewrite Hlen'.
    - exact Hmd. }
  pose proof (pack_entries_ok _ _ _ Hacc') as Hp'.
  cbn [resolve_metadata] in Hp'.
  exists {| rec_header := {| magic := h0; version := h1; flags := h2;
                             count := len entries |};
            rec_entries := es';
            rec_metadata := md |}, (layout es' (h0, h1, h2) md).
  cbn [rec_header rec_entries rec_metadata magic version flags].
  split; [|split; [exact Hp'|split]].
  - rewrite (parse_pack_entries_before_nul _ _ _ _ _ _ H). reflexivity.
  - rewrite (parse_pack_entries _ _ _ _ _ _ Hp'). cbn [resolve_metadata].
    rewrite Hlen'. do 2 f_equal. unfold es'. rewrite map_map.
    apply map_ext_in. intros e He.
    rewrite decode_slot_cut
      by (apply str_before_nul_entry_ok; rewrite Forall_forall in Hes;
          now apply Hes).
    apply str_before_nul_id, str_before_nul_nul_free.
  - intros Hnul. unfold es'. rewrite (map_str_before_nul entries Hnul).
    now rewrite Hbuf.
Qed.

Lemma repack_after_parse_witness :
  exists r buf',
    parse_entries (layout [[97; 0; 98]] (2008, 1, 7) [9]) = Ok r
    /\ pack_entries (rec_entries r)
                    (magic (rec_header r), version (rec_header r),
                     flags (rec_header r))
                    (Some (rec_metadata r))
       = Ok buf'
    /\ parse_entries buf' = Ok r
    /\ (Forall nul_free [[97; 0; 98]]
        -> buf' = layout [[97; 0; 98]] (2008, 1, 7) [9]).
Proof.
  apply (repack_after_parse [[97; 0; 98]] 2008 1 7 (Some [9])).
  vm_compute. reflexivity.
Defined.

(** ** More on the decoder *)

(** X10.  The trailer size check of [parse_entries] (lines 47-50) can
    never fail: no input makes it raise the "Unexpected trailer size"
    error. *)
Theorem parse_entries_trailer_check_never_fails (data : bytes)
    (actual expected : Z) :
  parse_entries data <> Err (TrailerSizeMismatch actual expected).
Proof.
  destruct (Z_lt_dec (len data) 16) as [Hlt|Hge].
  { rewrite parse_entries_short by exact Hlt. discriminate. }
  destruct (Z.eq_dec (len data) (expected_size data)) as [Heq|Hne].
  - rewrite parse_entries_sized by lia. discriminate.
  - rewrite parse_entries_mismatch by lia. discriminate.
Qed.

(** X11.  The length of an accepted buffer fixes the count: when
    [parse_entries] returns a record, the buffer has 16 + 264*count bytes,
    so its length minus 16 is a multiple of 264 and count is the
    quotient. *)
Theorem parse_entries_count_from_length (data : bytes) (r : record) :
  parse_entries data = Ok r ->
  len data = 16 + 264 * count (rec_header r)
  /\ (len data - 16) mod 264 = 0
  /\ count (rec_header r) = (len data - 16) / 264.
Proof.
  intros H. apply parse_entries_inv in H as (_ & Hsz & ->).
  unfold expected_size, ENTRY_SIZE in Hsz. unfold parsed.
  cbn [rec_header count]. euclid.
Qed.

Lemma parse_entries_count_from_length_witness :
  let data := layout [ascii_str "a"; ascii_str "bb"] (2008, 1, 7) [0; 0] in
  len data = 16 + 264 * count (rec_header (parsed data))
  /\ (len data - 16) mod 264 = 0
  /\ count (rec_header (parsed data)) = (len data - 16) / 264.
Proof.
  intros data. apply (parse_entries_count_from_length data (parsed data)).
  vm_compute. reflexivity.
Defined.

Lemma slice_app_l {A : Type} (l x : list A) (i j : Z) :
  0 <= i -> j <= len l -> slice (l ++ x) i j = slice l i j.
Proof.
  intros Hi Hj. unfold slice, len in *.
  destruct (Z_le_gt_dec j i) as [Hle|Hgt].
  { replace (Z.to_nat (j - i)) with O by lia. reflexivity. }
  rewrite skipn_app, firstn_app, length_skipn.
  replace (Z.to_nat (j - i) - (length l - Z.to_nat i))%nat with O by lia.
  cbn [firstn]. now rewrite app_nil_r.
Qed.

Lemma slice_firstn {A : Type} (l : list A) (k : nat) (i j : Z) :
  0 <= i -> j <= Z.of_nat k -> slice (firstn k l) i j = slice l i j.
Proof.
  intros Hi Hj.
  destruct (Nat.le_ge_cases (length l) k) as [Hk|Hk].
  { now rewrite firstn_all2 by exact Hk. }
  rewrite <- (firstn_skipn k l) at 2.
  symmetry. apply slice_app_l; [exact Hi|].
  unfold len. rewrite length_firstn. lia.
Qed.

(** X12.  Strict size check: appending bytes to an accepted buffer, or
    cutting bytes off its end, makes [parse_entries] reject it: with
    SizeMismatch, carrying the new length and the length the unchanged
    header announces, as long as the 16 header bytes are there, and with
    TruncatedHeader below 16 bytes. *)
Theorem parse_entries_strict_size (data : bytes) (r : record) :
  parse_entries data = Ok r ->
  (forall extra, extra <> [] ->
     parse_entries (data ++ extra)
     = Err (SizeMismatch (len data + len extra) (len data)))
  /\ (forall k, (16 <= k < length data)%nat ->
        parse_entries (firstn k data)
        = Err (SizeMismatch (Z.of_nat k) (len data)))
  /\ (forall k, (k < 16)%nat ->
        parse_entries (firstn k data) = Err TruncatedHeader).
Proof.
  intros H. apply parse_entries_inv in H as (H16 & Hsz & _).
  split; [|split].
  - intros extra Hne.
    assert (Hl : 0 < len extra)
      by (destruct extra; [easy | unfold len; cbn [length]; lia]).
    assert (Hx : expected_size (data ++ extra) = len data).
    { unfold expected_size, field_at. rewrite slice_app_l by lia.
      exact (eq_sym Hsz). }
    rewrite parse_entries_mismatch; rewrite ?len_app, ?Hx; try lia.
    reflexivity.
  - intros k Hk.
    assert (Hlk : len (firstn k data) = Z.of_nat k)
      by (unfold len; rewrite length_firstn; lia).
    assert (Hx : expected_size (firstn k data) = len data).
    { unfold expected_size, field_at. rewrite slice_firstn by lia.
      exact (eq_sym Hsz). }
    rewrite parse_entries_mismatch; rewrite ?Hlk, ?Hx; unfold len; try lia.
    reflexivity.
  - intros k Hk. apply parse_entries_short.
    unfold len. rewrite length_firstn. lia.
Qed.

Lemma parse_entries_strict_size_witness :
  let data := layout [ascii_str "a"] (2008, 1, 7) [0] in
  parse_entries (data ++ [x00])
  = Err (SizeMismatch (len data + len [x00]) (len data))
  /\ parse_entries (firstn 279 data)
     = Err (SizeMismatch (Z.of_nat 279) (len data))
  /\ parse_entries (firstn 15 data) = Err TruncatedHeader.
Proof.
  intros data.
  destruct (parse_entries_strict_size data (parsed data))
    as (Happ & Hcut & Hshort).
  - vm_compute. reflexivity.
  - split; [apply Happ; discriminate|]. split.
    + apply Hcut. vm_compute. split; [apply Nat.leb_le | apply Nat.ltb_lt];
        reflexivity.
    + apply Hshort. apply Nat.ltb_lt. reflexivity.
Defined.

(** X13.  A buffer of exactly 16 bytes is accepted exactly when its count
    field is 0, whatever magic, version and flags are, and it decodes to
    no entries and no metadata. *)
Theorem parse_entries_header_only (data : bytes) :
  len data = 16 ->
  ((exists r, parse_entries data = Ok r) <-> field_at data 12 = 0)
  /\ (forall r, parse_entries data = Ok r ->
        rec_entries r = [] /\ rec_metadata r = []
        /\ magic (rec_header r) = field_at data 0
        /\ version (rec_header r) = field_at data 4
        /\ flags (rec_header r) = field_at data 8).
Proof.
  intros H16. pose proof (field_at_u32 data 12) as [Hc _].
  assert (Hiff : len data = expected_size data <-> field_at data 12 = 0)
    by (unfold expected_size, ENTRY_SIZE; lia).
  split; [split|].
  - intros (r & Hr). apply parse_entries_inv in Hr as (_ & Hsz & _).
    now apply Hiff.
  - intros H0. exists (parsed data). apply parse_entries_sized; [lia|].
    now apply Hiff.
  - intros r Hr. apply parse_entries_inv in Hr as (_ & Hsz & ->).
    apply Hiff in Hsz. unfold parsed.
    cbn [rec_entries rec_metadata rec_header magic version flags].
    rewrite Hsz. cbn [range Z.to_nat seq map].
    replace (slice_from data (16 + 0 * ENTRY_SIZE)) with (@nil byte).
    + repeat split; reflexivity.
    + unfold slice_from. symmetry. apply skipn_all2. unfold len in H16.
      cbn. lia.
Qed.

Lemma parse_entries_header_only_witness :
  let data := le_bytes 4 1 ++ le_bytes 4 2 ++ le_bytes 4 3 ++ le_bytes 4 0 in
  ((exists r, parse_entries data = Ok r) <-> field_at data 12 = 0)
  /\ (forall r, parse_entries data = Ok r ->
        rec_entries r = [] /\ rec_metadata r = []
        /\ magic (rec_header r) = field_at data 0
        /\ version (rec_header r) = field_at data 4
        /\ flags (rec_header r) = field_at data 8).
Proof.
  intros data. apply (parse_entries_header_only data). reflexivity.
Defined.

(** ** Built-ins: stripping and splitting *)

Lemma lstrip_split (s : str) :
  exists p, s = p ++ lstrip s /\ all_space p.
Proof.
  induction s as [|c t (p & Hp & Hs)].
  - exists []. split; [reflexivity|constructor].
  - cbn [lstrip]. destruct (is_space c) eqn:E.
    + exists (c :: p). split; [cbn [app]; now f_equal|now constructor].
    + exists []. split; [reflexivity|constructor].
Qed.

Lemma lstrip_head (s : str) (c : Z) (t : str) :
  lstrip s = c :: t -> is_space c = false.
Proof.
  induction s as [|x s IH]; [discriminate|]. cbn [lstrip].
  destruct (is_space x) eqn:E; [exact IH|].
  intros H. injection H as <- _. exact E.
Qed.

Lemma lstrip_fix (s : str) :
  (forall c t, s = c :: t -> is_space c = false) -> lstrip s = s.
Proof.
  destruct s as [|c t]; [reflexivity|]. intros H. cbn [lstrip].
  now rewrite (H c t eq_refl).
Qed.

Lemma lstrip_all_space (s : str) : all_space s -> lstrip s = [].
Proof.
  induction 1 as [|c t Hc _ IH]; [reflexivity|].
  cbn [lstrip]. now rewrite Hc.
Qed.

Lemma lstrip_incl (s : str) : incl (lstrip s) s.
Proof.
  destruct (lstrip_split s) as (p & Hp & _). rewrite Hp at 2.
  apply incl_appr, incl_refl.
Qed.

Lemma strip_incl (s : str) : incl (strip s) s.
Proof.
  unfold strip. intros c Hc. apply in_rev in Hc.
  apply lstrip_incl, in_rev in Hc. now apply lstrip_incl.
Qed.

Lemma strip_all_space (s : str) : all_space s -> strip s = [].
Proof.
  intros H. unfold strip. now rewrite (lstrip_all_space s H).
Qed.

Lemma strip_stripped (s : str) : stripped (strip s).
Proof.
  unfold strip, stripped. set (u := lstrip s).
  destruct (lstrip_split (rev u)) as (p & Hp & _).
  set (w := lstrip (rev u)) in *. split.
  - intros c t Hc.
    assert (Hu : u = rev w ++ rev p)
      by (rewrite <- rev_app_distr, <- Hp; now rewrite rev_involutive).
    rewrite Hc in Hu. cbn [app] in Hu.
    apply (lstrip_head s c (t ++ rev p)). exact Hu.
  - intros c t Hc. rewrite rev_involutive in Hc.
    now apply (lstrip_head (rev u) c t).
Qed.

Lemma strip_fix (s : str) : stripped s -> strip s = s.
Proof.
  intros [Hl Hr]. unfold strip. rewrite (lstrip_fix s Hl).
  rewrite (lstrip_fix (rev s) Hr). apply rev_involutive.
Qed.

Lemma splitlines_from_Forall (P : Z -> Prop) (s line : str) :
  Forall P line -> Forall P s ->
  Forall (Forall P) (splitlines_from line s).
Proof.
  remember (length s) as n eqn:Hn. revert s line Hn.
  induction n as [n IH] using lt_wf_ind. intros [|c t] line Hn Hline Hs.
  - cbn [splitlines_from]. destruct line; [constructor|].
    constructor; [|constructor]. now apply Forall_rev.
  - inversion Hs as [|? ? Hc Ht]; subst. cbn [splitlines_from].
    destruct (is_linebreak c).
    + destruct t as [|c2 t2].
      * constructor; [now apply Forall_rev|].
        cbn [splitlines_from]. constructor.
      * inversion Ht as [|? ? Hc2 Ht2]; subst.
        destruct ((c =? 0xD) && (c2 =? 0xA)).
        -- constructor; [now apply Forall_rev|].
           apply (IH (length t2)); [cbn [length] in *; lia|reflexivity| |exact Ht2].
           constructor.
        -- constructor; [now apply Forall_rev|].
           apply (IH (length (c2 :: t2)));
             [cbn [length] in *; lia|reflexivity| |exact Ht].
           constructor.
    + apply (IH (length t)); [cbn [length] in *; lia|reflexivity| |exact Ht].
      now constructor.
Qed.

Lemma splitlines_from_no_break (s line : str) :
  Forall (fun c => is_linebreak c = false) line ->
  Forall (Forall (fun c => is_linebreak c = false)) (splitlines_from line s).
Proof.
  remember (length s) as n eqn:Hn. revert s line Hn.
  induction n as [n IH] using lt_wf_ind. intros [|c t] line Hn Hline.
  - cbn [splitlines_from]. destruct line; [constructor|].
    constructor; [|constructor]. now apply Forall_rev.
  - cbn [splitlines_from]. destruct (is_linebreak c) eqn:Ec.
    + destruct t as [|c2 t2].
      * constructor; [now apply Forall_rev|].
        cbn [splitlines_from]. constructor.
      * destruct ((c =? 0xD) && (c2 =? 0xA)).
        -- constructor; [now apply Forall_rev|].
           apply (IH (length t2)); [cbn [length] in *; lia|reflexivity|].
           constructor.
        -- constructor; [now apply Forall_rev|].
           apply (IH (length (c2 :: t2))); [cbn [length] in *; lia|reflexivity|].
           constructor.
    + apply (IH (length t)); [cbn [length] in *; lia|reflexivity|].
      now constructor.
Qed.

(** ** The loader and the pack command *)

Lemma filter_blank_lines (lines : list str) :
  Forall all_space lines ->
  filter (fun line => match strip line with [] => false | _ => true end) lines
  = [].
Proof.
  induction 1 as [|l ls Hl _ IH]; [reflexivity|].
  cbn [filter]. now rewrite (strip_all_space l Hl).
Qed.

Section LoaderFurther.

Variable json_loads : str -> result json.
Variable py_str : json -> str.
Variable py_int : json -> result Z.

#[local] Abbreviation read := (read_entries json_loads py_str py_int).
#[local] Abbreviation load := (load_entries json_loads py_str py_int).
#[local] Abbreviation payload := (main_payload json_loads py_str py_int).

(** The test of line 34. *)
#[local] Abbreviation looks_like_json raw :=
  (startswith (lstrip raw) 123 || startswith (lstrip raw) 91).

Lemma read_entries_text (raw : str) :
  looks_like_json raw = false ->
  read raw
  = Ok (map strip
          (filter (fun line => match strip line with [] => false | _ => true end)
                  (splitlines raw)),
        None).
Proof. intros H. unfold read_entries. now rewrite H. Qed.

Lemma load_entries_inv (raw : str) (es : list str) (md : option (list Z)) :
  load raw = Ok (es, md) -> read raw = Ok (es, md) /\ es <> [].
Proof.
  unfold load_entries.
  destruct (read raw) as [[es' md']|e]; [|discriminate].
  cbn [bind fst]. destruct es' as [|x xs]; [discriminate|].
  intros E. injection E as <- <-. split; [reflexivity|discriminate].
Qed.

Lemma load_entries_text_inv (raw : str) (es : list str)
    (md : option (list Z)) :
  looks_like_json raw = false ->
  load raw = Ok (es, md) ->
  md = None
  /\ es = map strip
            (filter (fun line => match strip line with [] => false | _ => true end)
                    (splitlines raw)).
Proof.
  intros Htext Hload. apply load_entries_inv in Hload as (Hread & _).
  rewrite (read_entries_text raw Htext) in Hread.
  injection Hread as <- <-. now split.
Qed.

(** X14.  An input file made of whitespace only, the empty file included,
    is rejected: [load_entries] raises EmptyInput, and so does the pack
    command for every header; [json.loads] is not consulted. *)
Theorem load_entries_blank_file (raw : str) :
  Forall (fun c => is_space c = true) raw ->
  load raw = Err EmptyInput
  /\ forall header, payload raw header = Err EmptyInput.
Proof.
  intros Hraw.
  assert (Hl : load raw = Err EmptyInput).
  { unfold load_entries. rewrite read_entries_text
      by (now rewrite (lstrip_all_space raw Hraw)).
    rewrite filter_blank_lines; [reflexivity|].
    apply (splitlines_from_Forall (fun c => is_space c = true));
      [constructor|exact Hraw]. }
  split; [exact Hl|]. intros header. unfold main_payload. now rewrite Hl.
Qed.

(** X15.  Plain-text input: when the text does not start, after leading
    whitespace, with a brace or a bracket, the entries [load_entries]
    returns are non-empty, have no whitespace at either end and contain no
    line boundary character, and there is no metadata. *)
Theorem load_entries_text_entries (raw : str) (es : list str)
    (md : option (list Z)) :
  looks_like_json raw = false ->
  load raw = Ok (es, md) ->
  md = None
  /\ Forall (fun e => e <> [] /\ strip e = e
                      /\ Forall (fun c => is_linebreak c = false) e) es.
Proof.
  intros Htext Hload.
  destruct (load_entries_text_inv raw es md Htext Hload) as (-> & ->).
  split; [reflexivity|].
  apply Forall_forall. intros e He.
  apply in_map_iff in He as (line & <- & Hline).
  apply filter_In in Hline as (Hin & Hne).
  split; [|split].
  - intros E. now rewrite E in Hne.
  - apply strip_fix, strip_stripped.
  - pose proof (splitlines_from_no_break raw [] (Forall_nil _)) as Hall.
    rewrite Forall_forall in Hall. specialize (Hall line Hin).
    apply Forall_forall. intros c Hc. rewrite Forall_forall in Hall.
    now apply Hall, strip_incl.
Qed.

(** X16.  The pack command never writes a container without entries:
    every buffer it produces is accepted by [parse_entries], announces at
    least one entry and has at least 280 bytes. *)
Theorem main_payload_has_entries (raw : str) (header : Z * Z * Z)
    (buf : bytes) :
  payload raw header = Ok buf ->
  exists r, parse_entries buf = Ok r
            /\ 1 <= count (rec_header r)
            /\ 280 <= len buf.
Proof.
  unfold main_payload. destruct (load raw) as [[es md]|e] eqn:El;
    [|discriminate].
  cbn [bind fst snd]. intros Hp.
  apply load_entries_inv in El as (_ & Hne).
  destruct header as [[h0 h1] h2].
  pose proof (parse_pack_entries _ _ _ _ _ _ Hp) as Hparse.
  pose proof (pack_entries_inv _ _ _ _ Hp) as (Hacc & ->).
  destruct Hacc as (_ & _ & _ & _ & Hes & Hlen & _).
  eexists. split; [exact Hparse|]. cbn [rec_header count].
  assert (H1 : 1 <= len es)
    by (destruct es; [easy | unfold len; cbn [length]; lia]).
  split; [exact H1|].
  rewrite (len_layout es (h0, h1, h2) _ Hes Hlen). lia.
Qed.

(** X17.  For a plain-text input the pack command writes all-zero
    metadata: the buffer it produces decodes to a record whose metadata
    are zeros, one per entry. *)
Theorem main_payload_text_metadata (raw : str) (header : Z * Z * Z)
    (buf : bytes) :
  looks_like_json raw = false ->
  payload raw header = Ok buf ->
  exists r, parse_entries buf = Ok r
            /\ rec_metadata r = repeat 0 (length (rec_entries r)).
Proof.
  intros Htext. unfold main_payload.
  destruct (load raw) as [[es md]|e] eqn:El; [|discriminate].
  cbn [bind fst snd]. intros Hp.
  destruct (load_entries_text_inv raw es md Htext El) as (-> & _).
  destruct header as [[h0 h1] h2].
  pose proof (parse_pack_entries _ _ _ _ _ _ Hp) as Hparse.
  eexists. split; [exact Hparse|].
  cbn [rec_metadata rec_entries resolve_metadata]. now rewrite length_map.
Qed.

(** X18.  A JSON object that has neither an "entries" nor a "paths" member
    is rejected with the "JSON input must be a list or object with
    entries" error, whatever its other members, "metadata" included. *)
Theorem load_entries_object_without_entries (raw : str)
    (d : list (str * json)) :
  looks_like_json raw = true ->
  json_loads raw = Ok (JDict d) ->
  dict_get d (ascii_str "entries") = None ->
  dict_get d (ascii_str "paths") = None ->
  load raw = Err JsonNotAList.
Proof.
  intros Hj Hd He Hp. unfold load_entries, read_entries.
  rewrite Hj, Hd. cbn [bind]. rewrite He, Hp. reflexivity.
Qed.

(** X19.  [load_entries] does not compare the number of metadata values
    with the number of entries: a JSON object whose "metadata" list has
    another length than its "entries" list is loaded as it is, and it is
    [pack_entries] that makes the pack command fail, with
    MetadataCountMismatch, when the header integers are u32 and the
    entries are accepted. *)
Theorem main_payload_metadata_mismatch (raw : str) (d : list (str * json))
    (items values : list json) (m : list Z) (h0 h1 h2 : Z) :
  looks_like_json raw = true ->
  json_loads raw = Ok (JDict d) ->
  dict_get d (ascii_str "entries") = Some (JList items) ->
  dict_get d (ascii_str "metadata") = Some (JList values) ->
  mapM py_int values = Ok m ->
  items <> [] -> len m <> len items ->
  u32 h0 -> u32 h1 -> u32 h2 -> u32 (len items) ->
  Forall entry_ok (map py_str items) ->
  load raw = Ok (map py_str items, Some m)
  /\ payload raw (h0, h1, h2)
     = Err (MetadataCountMismatch (len m) (len items)).
Proof.
  intros Hj Hd He Hmd Hm Hne Hlen H0 H1 H2 Hc Hes.
  assert (Hl : load raw = Ok (map py_str items, Some m)).
  { unfold load_entries, read_entries.
    rewrite Hj, Hd. cbn [bind]. rewrite He, Hmd, Hm. cbn [bind fst].
    destruct items; [easy|reflexivity]. }
  split; [exact Hl|]. unfold main_payload. rewrite Hl. cbn [bind fst snd].
  assert (Hli : len (map py_str items) = len items)
    by (unfold len; now rewrite length_map).
  rewrite <- Hli. apply pack_entries_metadata_mismatch; try assumption.
  - now rewrite Hli.
  - now rewrite Hli.
Qed.

End LoaderFurther.

Lemma load_entries_blank_file_witness :
  let json_loads := fun _ : str => @Err json JSONDecodeError in
  let py_str := fun _ : json => @nil Z in
  let py_int := fun _ : json => @Err Z IntConversionError in
  load_entries json_loads py_str py_int [32; 9; 10; 13; 10; 32]
  = Err EmptyInput
  /\ forall header,
       main_payload json_loads py_str py_int [32; 9; 10; 13; 10; 32] header
       = Err EmptyInput.
Proof.
  intros json_loads py_str py_int.
  apply (load_entries_blank_file json_loads py_str py_int).
  repeat (apply Forall_cons; [reflexivity|]). apply Forall_nil.
Defined.

Lemma load_entries_text_entries_witness :
  let json_loads := fun _ : str => @Err json JSONDecodeError in
  let py_str := fun _ : json => @nil Z in
  let py_int := fun _ : json => @Err Z IntConversionError in
  @None (list Z) = None
  /\ Forall (fun e => e <> [] /\ strip e = e
                      /\ Forall (fun c => is_linebreak c = false) e)
            [[97; 32; 98]; [99]].
Proof.
  intros json_loads py_str py_int.
  apply (load_entries_text_entries json_loads py_str py_int
           [32; 97; 32; 98; 32; 13; 10; 10; 9; 99; 10]).
  - reflexivity.
  - vm_compute. reflexivity.
Defined.

Lemma main_payload_has_entries_witness :
  let json_loads := fun _ : str => @Err json JSONDecodeError in
  let py_str := fun _ : json => @nil Z in
  let py_int := fun _ : json => @Err Z IntConversionError in
  exists r,
    parse_entries (layout [[97; 32; 98]; [99]] (2008, 1, 7) [0; 0]) = Ok r
    /\ 1 <= count (rec_header r)
    /\ 280 <= len (layout [[97; 32; 98]; [99]] (2008, 1, 7) [0; 0]).
Proof.
  intros json_loads py_str py_int.
  apply (main_payload_has_entries json_loads py_str py_int
           [32; 97; 32; 98; 32; 13; 10; 10; 9; 99; 10] (2008, 1, 7)).
  vm_compute. reflexivity.
Defined.

Lemma main_payload_text_metadata_witness :
  let json_loads := fun _ : str => @Err json JSONDecodeError in
  let py_str := fun _ : json => @nil Z in
  let py_int := fun _ : json => @Err Z IntConversionError in
  exists r,
    parse_entries (layout [[97; 32; 98]; [99]] (2008, 1, 7) [0; 0]) = Ok r
    /\ rec_metadata r = repeat 0 (length (rec_entries r)).
Proof.
  intros json_loads py_str py_int.
  apply (main_payload_text_metadata json_loads py_str py_int
           [32; 97; 32; 98; 32; 13; 10; 10; 9; 99; 10] (2008, 1, 7)).
  - reflexivity.
  - vm_compute. reflexivity.
Defined.

Lemma load_entries_object_without_entries_witness :
  let d := [(ascii_str "files", JList [JStr [97]]);
            (ascii_str "metadata", JList [JInt 5])] in
  let json_loads := fun _ : str => Ok (JDict d) in
  let py_str := fun j : json => match j with JStr s => s | _ => [] end in
  let py_int := fun j : json =>
                  match j with JInt z => Ok z | _ => Err IntConversionError end in
  load_entries json_loads py_str py_int [32; 123; 125] = Err JsonNotAList.
Proof.
  intros d json_loads py_str py_int.
  apply (load_entries_object_without_entries json_loads py_str py_int
           [32; 123; 125] d); reflexivity.
Defined.

Lemma main_payload_metadata_mismatch_witness :
  let items := [JStr [97]; JStr [98; 98]] in
  let d := [(ascii_str "entries", JList items);
            (ascii_str "metadata", JList [JInt 5])] in
  let json_loads := fun _ : str => Ok (JDict d) in
  let py_str := fun j : json => match j with JStr s => s | _ => [] end in
  let py_int := fun j : json =>
                  match j with JInt z => Ok z | _ => Err IntConversionError end in
  load_entries json_loads py_str py_int [123; 125]
  = Ok (map py_str items, Some [5])
  /\ main_payload json_loads py_str py_int [123; 125] (2008, 1, 7)
     = Err (MetadataCountMismatch (len [5]) (len items)).
Proof.
  intros items d json_loads py_str py_int.
  apply (main_payload_metadata_mismatch json_loads py_str py_int
           [123; 125] d items [JInt 5] [5] 2008 1 7);
    try reflexivity; try discriminate; try (unfold u32; cbn; lia).
  repeat (apply Forall_cons || apply Forall_nil);
    (eexists; split; [vm_compute; reflexivity | vm_compute; discriminate]).
Defined.

(* ================================================================== *)
(** * The decoder on a buffer of the right size *)

(** One step of the decoder, exactly: the character it emits is U+FFFD, or
    it is a character whose UTF-8 encoding is the bytes consumed. *)
Lemma utf8_decode_step_exact (c1 : byte) (t1 : bytes) :
  exists (c : Z) (rest : bytes),
    utf8_decode_replace (c1 :: t1) = c :: utf8_decode_replace rest
    /\ (length rest <= length t1)%nat
    /\ (c = REPLACEMENT
        \/ exists cb, utf8_encode_char c = Ok cb /\ c1 :: t1 = cb ++ rest).
Proof.
  pose proof (b2z_range c1) as R1.
  assert (Hend : forall c : Z,
             [c] = c :: utf8_decode_replace []) by reflexivity.
  cbn [utf8_decode_replace]. unfold is_continuation.
  destruct t1 as [|c2 [|c3 [|c4 t4]]];
    try pose proof (b2z_range c2) as R2;
    try pose proof (b2z_range c3) as R3;
    try pose proof (b2z_range c4) as R4;
    split_tests;
    first [ rewrite Hend | idtac ];
    (eexists _, _; split; [reflexivity|]; split; [cbn [length]; lia|];
     try solve [ left; reflexivity ]).
  all: right; unfold utf8_encode_char, is_surrogate; split_tests.
  all: (eexists; split; [reflexivity|]; cbn [app]; z2b_back;
        rewrite ?z2b_b2z; reflexivity).
Qed.

Lemma utf8_encode_cons_ok (c : Z) (s : str) (cb bs : bytes) :
  utf8_encode_char c = Ok cb -> utf8_encode s = Ok bs ->
  utf8_encode (c :: s) = Ok (cb ++ bs).
Proof.
  unfold utf8_encode. cbn [mapM]. intros -> H. cbn [bind].
  destruct (mapM utf8_encode_char s) as [bss|e]; [|discriminate].
  cbn [bind] in *. apply Ok_inj in H. now subst.
Qed.

(** Bytes that decode without any U+FFFD are the UTF-8 encoding of what
    they decode to. *)
Lemma utf8_encode_decode (bs : bytes) :
  ~ In REPLACEMENT (utf8_decode_replace bs) ->
  utf8_encode (utf8_decode_replace bs) = Ok bs.
Proof.
  remember (length bs) as n eqn:Hn. revert bs Hn.
  induction n as [n IH] using lt_wf_ind. intros [|c1 t1] Hn Hno.
  - reflexivity.
  - destruct (utf8_decode_step_exact c1 t1)
      as (c & rest & Hd & Hlen & [->|(cb & Hcb & Hbs)]).
    + elim Hno. rewrite Hd. now left.
    + rewrite Hd in *. rewrite Hbs.
      apply utf8_encode_cons_ok; [exact Hcb|].
      apply (IH (length rest)); [cbn [length] in Hn; lia|reflexivity|].
      intros Hin. apply Hno. now right.
Qed.

(** Lossy repair: the text of a slot that is the UTF-8 encoding of a
    string decodes to that string, and any other text decodes to a string
    with U+FFFD in it. *)
Lemma utf8_decode_replace_repairs (text : bytes) :
  (forall s, utf8_encode s = Ok text -> utf8_decode_replace text = s)
  /\ ((forall s, utf8_encode s <> Ok text) ->
      In REPLACEMENT (utf8_decode_replace text)).
Proof.
  split; [intros s; apply utf8_decode_encode|].
  intros Hnone.
  destruct (in_dec Z.eq_dec REPLACEMENT (utf8_decode_replace text))
    as [Hin|Hno]; [exact Hin|].
  elim (Hnone _ (utf8_encode_decode text Hno)).
Qed.

Lemma nth_range {A : Type} (f : Z -> A) (n i : Z) (d : A) :
  0 <= i < n -> nth (Z.to_nat i) (map f (range n)) d = f i.
Proof.
  intros Hi. unfold range. rewrite map_map.
  rewrite (nth_indep _ d (f (Z.of_nat 0)))
    by (rewrite length_map, length_seq; lia).
  rewrite (map_nth (fun k => f (Z.of_nat k))), seq_nth by lia.
  f_equal. lia.
Qed.

Lemma slice_slice_from {A : Type} (l : list A) (off a b : Z) :
  0 <= off -> 0 <= a ->
  slice (slice_from l off) a b = slice l (off + a) (off + b).
Proof.
  intros Hoff Ha. unfold slice, slice_from. rewrite skipn_skipn.
  f_equal; [f_equal; lia|f_equal; lia].
Qed.

(** C2.  Decode failure conditions and totality: [parse_entries] raises
    TruncatedHeader exactly when the buffer has fewer than 16 bytes;
    otherwise, with count the little-endian u32 at offset 12, it raises
    SizeMismatch, carrying the actual and the expected size, exactly when
    the buffer length differs from 16 + count*260 + count*4; and on a
    buffer that passes both checks it returns a record, whatever the bytes
    are: the header holds the four fields read from the buffer, there are
    count entries and count metadata values, entry idx is the decoded text
    of slot idx up to its first zero byte, and metadata i is the u32 at
    offset 16 + count*260 + 4*i.  Invalid UTF-8 in a slot is no error, it is
    repaired: a text that is the UTF-8 encoding of a string decodes to that
    string, any other text decodes to a string with U+FFFD in it.  A
    failure is an exception: no record comes with it. *)
Theorem parse_entries_failure_conditions (data : bytes) :
  (len data < 16 <-> parse_entries data = Err TruncatedHeader)
  /\ (16 <= len data ->
      let n := field_at data 12 in
      let expected := 16 + n * 260 + n * 4 in
      (len data <> expected <->
       parse_entries data = Err (SizeMismatch (len data) expected))
      /\ (len data = expected ->
          exists r,
            parse_entries data = Ok r
            /\ rec_header r = {| magic := field_at data 0;
                                 version := field_at data 4;
                                 flags := field_at data 8;
                                 count := n |}
            /\ len (rec_entries r) = n
            /\ len (rec_metadata r) = n
            /\ (forall idx, 0 <= idx < n ->
                  let text :=
                    before_nul (slice data (16 + idx * 260)
                                      (16 + idx * 260 + 260)) in
                  let entry := nth (Z.to_nat idx) (rec_entries r) [] in
                  entry = utf8_decode_replace text
                  /\ (forall s, utf8_encode s = Ok text -> entry = s)
                  /\ ((forall s, utf8_encode s <> Ok text) ->
                      In REPLACEMENT entry))
            /\ (forall i, 0 <= i < n ->
                  nth (Z.to_nat i) (rec_metadata r) 0
                  = field_at data (16 + n * 260 + i * 4)))).
Proof.
  split; [split|].
  - apply parse_entries_short.
  - intros H. destruct (Z_lt_dec (len data) 16) as [Hlt|Hge]; [exact Hlt|].
    destruct (Z.eq_dec (len data) (expected_size data)) as [Heq|Hne].
    + rewrite parse_entries_sized in H by lia. discriminate.
    + rewrite parse_entries_mismatch in H by lia. discriminate.
  - intros H16. cbn zeta.
    change (16 + field_at data 12 * 260 + field_at data 12 * 4)
      with (expected_size data).
    split; [split|].
    + now apply parse_entries_mismatch.
    + intros H Heq. rewrite parse_entries_sized in H by assumption.
      discriminate.
    + intros Heq. exists (parsed data).
      split; [now apply parse_entries_sized|].
      pose proof (field_at_u32 data 12) as [Hc _].
      assert (Hsz : len data = 16 + field_at data 12 * 260
                               + field_at data 12 * 4) by exact Heq.
      assert (Htr : len (slice_from data (16 + field_at data 12 * ENTRY_SIZE))
                    = 4 * field_at data 12)
        by (rewrite len_slice_from; unfold ENTRY_SIZE; lia).
      unfold parsed. cbn [rec_header rec_entries rec_metadata].
      split; [reflexivity|]. split; [|split; [|split]].
      * unfold len. rewrite length_map, length_range. lia.
      * rewrite Htr, range_step_4 by exact Hc.
        unfold len. rewrite !length_map, length_range. lia.
      * intros idx Hidx. cbn zeta.
        rewrite (nth_range (A:=str) _ (field_at data 12) idx []) by exact Hidx.
        unfold ENTRY_SIZE. split; [reflexivity|].
        apply utf8_decode_replace_repairs.
      * intros i Hi. rewrite Htr, range_step_4, map_map by exact Hc.
        rewrite (nth_range _ (field_at data 12) i 0) by exact Hi.
        rewrite slice_slice_from by (unfold ENTRY_SIZE; lia).
        unfold field_at, ENTRY_SIZE. do 2 f_equal; lia.
Qed.

(** The three outcomes on concrete buffers: no header; a header that
    announces 3 entries on a buffer with the length of 2; and a buffer of
    the right size whose slot holds an invalid byte, which is read as
    U+FFFD. *)
Lemma parse_entries_failure_conditions_witness :
  let header n := le_bytes 4 2008 ++ le_bytes 4 1 ++ le_bytes 4 7
                  ++ le_bytes 4 n in
  let short := header 3 ++ repeat x00 (2 * 264) in
  let lossy := header 1 ++ (x61 :: x80 :: x62 :: repeat x00 257)
               ++ le_bytes 4 9 in
  parse_entries [] = Err TruncatedHeader
  /\ parse_entries short = Err (SizeMismatch 544 808)
  /\ exists r,
       parse_entries lossy = Ok r
       /\ rec_header r = {| magic := 2008; version := 1; flags := 7;
                            count := 1 |}
       /\ nth 0 (rec_entries r) [] = [97; REPLACEMENT; 98]
       /\ In REPLACEMENT (nth 0 (rec_entries r) [])
       /\ nth 0 (rec_metadata r) 0 = 9.
Proof.
  intros header short lossy. split; [|split].
  - apply (proj1 (parse_entries_failure_conditions [])). reflexivity.
  - assert (H16 : 16 <= len short) by (vm_compute; discriminate).
    apply (proj1 (proj2 (parse_entries_failure_conditions short) H16)).
    vm_compute. discriminate.
  - assert (H16 : 16 <= len lossy) by (vm_compute; discriminate).
    destruct (proj2 (proj2 (parse_entries_failure_conditions lossy) H16)
                    eq_refl)
      as (r & Hr & Hh & _ & _ & He & Hm).
    exists r. split; [exact Hr|]. split; [exact Hh|].
    assert (H0 : 0 <= 0 < field_at lossy 12) by (vm_compute; split;
      [discriminate | reflexivity]).
    destruct (He 0 H0) as (Hentry & _ & Hrep).
    split; [exact Hentry|]. split.
    + apply Hrep. intros s Hs.
      pose proof (utf8_decode_encode s _ Hs) as Hd.
      vm_compute in Hd. subst s. vm_compute in Hs. discriminate.
    + exact (Hm 0 H0).
Defined.
